(** * The consensus transport of charon (package [core/consensus])

    A shallow embedding of [transport], [createMsg], [validateMsg] and the
    [sniffer], followed by the properties of the broadcast and receive
    paths.

    Conventions
    - a Go [[32]byte] is a [vec byte 32]; slicing it ([h[:]]) is
      [vec_to_list];
    - a pointer [*anypb.Any] passed as an argument is an [option Any]
      ([None] is [nil]);
    - a [map[[32]byte]*anypb.Any] is a [gmap (vec byte 32) Any];
    - a Go [error] result is [result A]: [Ok a] is [(a, nil)];
    - methods of the transport run in the monad [M], which threads the
      mutable [world] (value store, inner buffer, sniffer, network) and
      stops at the first error, keeping the effects made so far;
    - [float64] is Rocq's primitive binary64 float. *)

From Stdlib Require Import ZArith Floats Uint63 Strings.Byte.
From stdpp Require Import gmap strings list vector.

(** ** Bytes and fixed-size byte arrays *)

#[global] Instance byte_eq_dec : EqDecision byte := Byte.byte_eq_dec.

#[global] Program Instance byte_countable : Countable byte :=
  inj_countable Byte.to_N Byte.of_N _.
Next Obligation. intros b. apply Byte.of_to_N. Qed.

(** Conversion of a slice back to an array of [n] bytes; it is the left
    inverse of slicing that makes arrays countable, with an encoding that
    computes. *)
Definition array_of_slice (n : nat) (l : list byte) : option (vec byte n) :=
  match decide (length l = n) with
  | left H => Some (eq_rect _ (vec byte) (list_to_vec l) n H)
  | right _ => None
  end.

Lemma array_of_slice_to_list n (v : vec byte n) :
  array_of_slice n (vec_to_list v) = Some v.
Proof.
  unfold array_of_slice. destruct (decide _) as [H|H].
  - f_equal. apply vec_to_list_inj2. destruct H. simpl.
    by rewrite vec_to_list_to_vec.
  - by rewrite length_vec_to_list in H.
Qed.

#[global] Instance array_countable n : Countable (vec byte n) | 0 :=
  inj_countable vec_to_list (array_of_slice n) (array_of_slice_to_list n).

(** [[32]byte{}], the zero value of a hash. *)
Definition zeroHash : vec byte 32 := vreplicate 32 x00.

(** ** Errors *)

(** [errors.New(msg)]. *)
Record error := errors_New { err_msg : string }.

Inductive result (A : Type) : Type :=
| Ok (a : A)
| Err (e : error).
Arguments Ok {A} a.
Arguments Err {A} e.

#[global] Instance result_ret : MRet result := fun _ a => Ok a.
#[global] Instance result_bind : MBind result := fun _ _ f r =>
  match r with
  | Ok a => f a
  | Err e => Err e
  end.

Definition UnknownValue : error := errors_New "unknown value".
Definition InvalidJustification : error := errors_New "invalid justification".

(** ** Protobuf messages *)

(** [anypb.Any]: a type URL and the serialised payload. *)
Record Any := { TypeUrl : string; AnyValue : list byte }.

(** [core.Duty]. *)
Record Duty := { Slot : Z; DutyType : Z }.

(** [pbv1.Duty]. *)
Record pbDuty := { pb_Slot : Z; pb_Type : Z }.

(** Modelled from the spec: [core.DutyToProto] is not among the sources; a
    duty is the pair of its slot and its type, on the wire as in memory. *)
Definition DutyToProto (d : Duty) : pbDuty :=
  {| pb_Slot := Slot d; pb_Type := DutyType d |}.

(** [pbv1.QBFTMsg], the signed envelope. *)
Record QBFTMsg := {
  Type_ : Z;
  Duty_ : pbDuty;
  PeerIdx : Z;
  Round : Z;
  Value : option Any;
  ValueHash : list byte;
  PreparedRound : Z;
  PreparedValue : option Any;
  PreparedValueHash : list byte;
  Signature : list byte
}.

Definition set_Signature (sig : list byte) (m : QBFTMsg) : QBFTMsg :=
  {| Type_ := Type_ m; Duty_ := Duty_ m; PeerIdx := PeerIdx m;
     Round := Round m; Value := Value m; ValueHash := ValueHash m;
     PreparedRound := PreparedRound m; PreparedValue := PreparedValue m;
     PreparedValueHash := PreparedValueHash m; Signature := sig |}.

(** [pbv1.ConsensusMsg], what travels to a peer. *)
Record ConsensusMsg := {
  cm_Msg : QBFTMsg;
  cm_Justification : list QBFTMsg;
  cm_Values : gmap (vec byte 32) Any
}.

(** [pbv1.SniffedConsensusMsg]. *)
Record SniffedConsensusMsg := { Timestamp : Z; sniffed_Msg : ConsensusMsg }.

(** [pbv1.SniffedConsensusInstance]. *)
Record SniffedConsensusInstance := {
  inst_Nodes : Z;
  inst_PeerIdx : Z;
  inst_StartedAt : Z;
  inst_Msgs : list SniffedConsensusMsg
}.

(** ** The in-memory message *)

(** Modelled from the spec: the [msg] struct is not among the sources. It
    wraps the signed envelope ([msg.msg]), the justifications, which are
    messages themselves, and the [values] side-map. *)
#[warnings="-register-all"]
Inductive msg : Type :=
  Msg { msg_msg : QBFTMsg;
        msg_justification : list msg;
        msg_values : gmap (vec byte 32) Any }.

(** A value of the interface [qbft.Msg[core.Duty, [32]byte]]: its dynamic
    type is [msg] or some other implementation. *)
Inductive qbftMsg : Type :=
| ImplMsg (impl : msg)
| ForeignMsg (tag : nat).

(** Modelled from the spec: [newMsg] is not among the sources. It wraps the
    envelope, its justifications and the side-map; each justification
    becomes a message with no justifications of its own, sharing the
    side-map. *)
Definition newMsg (pbMsg : QBFTMsg) (justification : list QBFTMsg)
    (values : gmap (vec byte 32) Any) : result msg :=
  Ok (Msg pbMsg ((fun j => Msg j [] values) <$> justification) values).

(** Modelled from the spec: [msg.ToConsensusMsg] is not among the sources.
    The wire message has the envelope, the envelopes of the justifications
    and the side-map. *)
Definition ToConsensusMsg (m : msg) : ConsensusMsg :=
  {| cm_Msg := msg_msg m;
     cm_Justification := msg_msg <$> msg_justification m;
     cm_Values := msg_values m |}.

(** Nesting depth of justifications of a message. *)
Fixpoint justification_depth (m : msg) : nat :=
  match m with
  | Msg _ js _ =>
      match js with
      | [] => 0
      | _ => S (foldr Nat.max 0 (map justification_depth js))
      end
  end.

(** ** The codec *)

Section Codec.
(** The cryptographic primitives behind [signMsg]: the hash of the
    canonical encoding of an envelope, and secp256k1 signing of a
    digest, which can fail. *)
Context (hashProto : QBFTMsg -> vec byte 32).
Context (k1Sign : Z -> vec byte 32 -> result (list byte)).

(** Modelled from the spec: [signMsg] is not among the sources. It signs
    the canonical encoding of the envelope with the signature field
    excluded, and returns a copy of the envelope carrying the
    signature. *)
Definition signMsg (m : QBFTMsg) (privkey : Z) : result QBFTMsg :=
  let clone := set_Signature [] m in
  sig ← k1Sign privkey (hashProto clone);
  Ok (set_Signature sig clone).

(** The loop of [createMsg] over the justifications: each one must be a
    [msg]; only its envelope is appended. *)
Fixpoint justProtos (justification : list qbftMsg) (justMsgs : list QBFTMsg)
    : result (list QBFTMsg) :=
  match justification with
  | [] => Ok justMsgs
  | ImplMsg impl :: rest => justProtos rest (justMsgs ++ [msg_msg impl])
  | ForeignMsg _ :: _ => Err InvalidJustification
  end.

(** The envelope [createMsg] hands to [signMsg]. *)
Definition envelope (typ : Z) (duty : Duty) (peerIdx round : Z)
    (vHash : vec byte 32) (value : option Any) (pr : Z)
    (pvHash : vec byte 32) (pv : option Any) : QBFTMsg :=
  {| Type_ := typ;
     Duty_ := DutyToProto duty;
     PeerIdx := peerIdx;
     Round := round;
     Value := value;
     ValueHash := vec_to_list vHash;
     PreparedRound := pr;
     PreparedValue := pv;
     PreparedValueHash := vec_to_list pvHash;
     Signature := [] |}.

Definition createMsg (typ : Z) (duty : Duty) (peerIdx round : Z)
    (vHash : vec byte 32) (value : option Any) (pr : Z)
    (pvHash : vec byte 32) (pv : option Any)
    (justification : list qbftMsg) (privkey : Z) (pointerValues : bool)
    : result msg :=
  let values : gmap (vec byte 32) Any := ∅ in
  let values := match value with Some v => <[vHash := v]> values | None => values end in
  let values := match pv with Some p => <[pvHash := p]> values | None => values end in
  (* Disable new pointer values, revert to legacy duplicated values. *)
  let values := if pointerValues then values else ∅ in
  let vHash := if pointerValues then vHash else zeroHash in
  let pvHash := if pointerValues then pvHash else zeroHash in
  let pbMsg := envelope typ duty peerIdx round vHash value pr pvHash pv in
  pbMsg ← signMsg pbMsg privkey;
  justMsgs ← justProtos justification [];
  newMsg pbMsg justMsgs values.
End Codec.

(** [validateMsg] returns an error if the message is invalid.
    TODO(corver): implement (incl signature verification). *)
Definition validateMsg (_ : msg) : option error := None.

(** ** The transport *)

(** [p2p.Peer]; the transport reads only its identity. *)
Record Peer := { ID : string }.

(** The part of [Component] the transport reads. The P2P sender is an
    external collaborator: [sender p m] is the error [SendAsync] returns
    for destination [p], [None] for [nil]. *)
Record Component := {
  peers : list Peer;
  tcpNodeID : string;
  sender : string -> ConsensusMsg -> option error;
  privkey : Z;
  legacyProbability : float
}.

(** [sniffer] buffers consensus messages. *)
Record sniffer := {
  nodes : Z;
  peerIdx : Z;
  startedAt : Z;
  msgs : list SniffedConsensusMsg
}.

(** [newSniffer] at wall-clock time [now]. *)
Definition newSniffer (nodes peerIdx now : Z) : sniffer :=
  {| nodes := nodes; peerIdx := peerIdx; startedAt := now; msgs := [] |}.

(** Observable effects, in the order they happen. *)
Inductive event : Type :=
| EvSetValues (values : gmap (vec byte 32) Any)
| EvEnqueue (m : msg)
| EvSniff (m : ConsensusMsg)
| EvSend (dest : string) (m : ConsensusMsg)
| EvWarn (e : error)
| EvGo (m : msg).

(** The mutable state a transport acts on: its own fields ([values],
    [recvBuffer], [sniffer]) and its environment: the bytes the random
    source will deliver, the wall clock, the loopback goroutines spawned
    and not yet scheduled, and the history of effects. The wall clock is
    a source of readings, consumed one per call: [w_now] is the reading
    the next call returns and [w_ticks] are the readings of the calls
    after it, in order; nothing is assumed of them. *)
Record world := {
  t_values : gmap (vec byte 32) Any;
  t_recvBuffer : list msg;
  t_sniffer : sniffer;
  w_rand : list byte;
  w_now : Z;
  w_ticks : nat -> Z;
  w_goroutines : list msg;
  w_trace : list event
}.

Definition set_values (f : gmap (vec byte 32) Any -> gmap (vec byte 32) Any)
    (w : world) : world :=
  {| t_values := f (t_values w); t_recvBuffer := t_recvBuffer w;
     t_sniffer := t_sniffer w; w_rand := w_rand w; w_now := w_now w;
     w_ticks := w_ticks w;
     w_goroutines := w_goroutines w; w_trace := w_trace w |}.

Definition set_recvBuffer (f : list msg -> list msg) (w : world) : world :=
  {| t_values := t_values w; t_recvBuffer := f (t_recvBuffer w);
     t_sniffer := t_sniffer w; w_rand := w_rand w; w_now := w_now w;
     w_ticks := w_ticks w;
     w_goroutines := w_goroutines w; w_trace := w_trace w |}.

Definition set_sniffer (f : sniffer -> sniffer) (w : world) : world :=
  {| t_values := t_values w; t_recvBuffer := t_recvBuffer w;
     t_sniffer := f (t_sniffer w); w_rand := w_rand w; w_now := w_now w;
     w_ticks := w_ticks w;
     w_goroutines := w_goroutines w; w_trace := w_trace w |}.

Definition set_rand (f : list byte -> list byte) (w : world) : world :=
  {| t_values := t_values w; t_recvBuffer := t_recvBuffer w;
     t_sniffer := t_sniffer w; w_rand := f (w_rand w); w_now := w_now w;
     w_ticks := w_ticks w;
     w_goroutines := w_goroutines w; w_trace := w_trace w |}.

Definition set_goroutines (f : list msg -> list msg) (w : world) : world :=
  {| t_values := t_values w; t_recvBuffer := t_recvBuffer w;
     t_sniffer := t_sniffer w; w_rand := w_rand w; w_now := w_now w;
     w_ticks := w_ticks w;
     w_goroutines := f (w_goroutines w); w_trace := w_trace w |}.

Definition emit (e : event) (w : world) : world :=
  {| t_values := t_values w; t_recvBuffer := t_recvBuffer w;
     t_sniffer := t_sniffer w; w_rand := w_rand w; w_now := w_now w;
     w_ticks := w_ticks w;
     w_goroutines := w_goroutines w; w_trace := w_trace w ++ [e] |}.

(** The destinations [SendAsync] was invoked with, in order. *)
Definition sends (w : world) : list (string * ConsensusMsg) :=
  omap (fun e => match e with EvSend p m => Some (p, m) | _ => None end)
       (w_trace w).

(** A computation over the world that may fail. *)
Definition M (A : Type) : Type := world -> result A * world.

#[global] Instance M_ret : MRet M := fun _ a w => (Ok a, w).
#[global] Instance M_bind : MBind M := fun _ _ f m w =>
  match m w with
  | (Ok a, w') => f a w'
  | (Err e, w') => (Err e, w')
  end.

(** Run a pure fallible computation. *)
Definition liftR {A} (r : result A) : M A := fun w => (r, w).

(** Perform an effect that cannot fail. *)
Definition effect (f : world -> world) : M unit := fun w => (Ok tt, f w).

(** [setValues] caches the values and their hashes. *)
Definition setValues (m : msg) : M unit :=
  effect (fun w =>
    emit (EvSetValues (msg_values m))
      (set_values (fun values =>
         map_fold (fun k v values => <[k := v]> values) values (msg_values m))
         w)).

(** [getValue] returns the value by its hash. *)
Definition getValue (hash : vec byte 32) : M Any := fun w =>
  match t_values w !! hash with
  | None => (Err UnknownValue, w)
  | Some pb => (Ok pb, w)
  end.

(** [rand.Read] into [make([]byte, 1)], its error ignored: the next byte
    of the source, or the zero byte the slice was made with when the
    source fails. *)
Definition randRead : M byte := fun w =>
  match w_rand w with
  | [] => (Ok x00, w)
  | b :: rest => (Ok b, set_rand (fun _ => rest) w)
  end.

Definition float64_of_byte (b : byte) : float :=
  PrimFloat.of_uint63 (Uint63.of_Z (Z.of_N (Byte.to_N b))).

(** The fraction [float64(b[0]) / 255]. *)
Definition fraction (b : byte) : float :=
  PrimFloat.div (float64_of_byte b) 255%float.

(** [usePointerValues] returns true if the transport should use pointer
    values in the message instead of the legacy duplicated values. *)
Definition usePointerValues (c : Component) : M bool :=
  b ← randRead;
  mret (PrimFloat.leb (legacyProbability c) (fraction b)).

(** [timestamppb.Now()]: the current reading of the wall clock; the next
    call gets the next reading. *)
Definition timestamppb_Now : M Z := fun w =>
  (Ok (w_now w),
   {| t_values := t_values w; t_recvBuffer := t_recvBuffer w;
      t_sniffer := t_sniffer w; w_rand := w_rand w;
      w_now := w_ticks w 0%nat;
      w_ticks := fun k => w_ticks w (S k);
      w_goroutines := w_goroutines w; w_trace := w_trace w |}).

(** [sniffer.Add] adds a message to the sniffer buffer, stamped with the
    time of the call. *)
Definition sniffer_Add (m : ConsensusMsg) : M unit :=
  now ← timestamppb_Now;
  effect (fun w =>
    emit (EvSniff m)
      (set_sniffer (fun s =>
         {| nodes := nodes s; peerIdx := peerIdx s; startedAt := startedAt s;
            msgs := msgs s ++ [{| Timestamp := now; sniffed_Msg := m |}] |})
         w)).

(** [sniffer.Instance] returns the buffered messages as an instance. *)
Definition sniffer_Instance (s : sniffer) : SniffedConsensusInstance :=
  {| inst_Nodes := nodes s; inst_PeerIdx := peerIdx s;
     inst_StartedAt := startedAt s; inst_Msgs := msgs s |}.

(** [t.recvBuffer <- msg], once the send is chosen by a [select]. *)
Definition enqueue (m : msg) : M unit :=
  effect (fun w => emit (EvEnqueue m) (set_recvBuffer (fun b => b ++ [m]) w)).

(** [sender.SendAsync] to [dest]. *)
Definition SendAsync (c : Component) (dest : string) (m : ConsensusMsg) : M unit :=
  fun w =>
    let w' := emit (EvSend dest m) w in
    match sender c dest m with
    | Some e => (Err e, w')
    | None => (Ok tt, w')
    end.


(** [go f()]: the goroutine is recorded and runs when scheduled. Its
    effects are on the inner buffer and the sniffer, which the fan-out
    that follows in [Broadcast] does not touch. *)
Definition go (m : msg) : M unit :=
  effect (fun w => emit (EvGo m) (set_goroutines (fun g => g ++ [m]) w)).


(** The fan-out loop of [Broadcast]. *)
Fixpoint sendPeers (c : Component) (m : ConsensusMsg) (ps : list Peer) : M unit :=
  match ps with
  | [] => mret tt
  | p :: rest =>
      if decide (ID p = tcpNodeID c)
      then sendPeers c m rest (* Do not broadcast to self *)
      else (_ ← SendAsync c (ID p) m; sendPeers c m rest)
  end.

Section Transport.
Context (hashProto : QBFTMsg -> vec byte 32).
Context (k1Sign : Z -> vec byte 32 -> result (list byte)).

(** Get the value by its hash if not zero. *)
Definition deref (hash : vec byte 32) : M (option Any) :=
  if decide (hash = zeroHash) then mret None
  else (pb ← getValue hash; mret (Some pb)).

(** [Broadcast] creates a msg and sends it to all peers (including
    self). *)
Definition Broadcast (c : Component) (typ : Z) (duty : Duty)
    (peerIdx round : Z) (valueHash : vec byte 32) (pr : Z)
    (pvHash : vec byte 32) (justification : list qbftMsg) : M unit :=
  value ← deref valueHash;
  pv ← deref pvHash;
  pointerValues ← usePointerValues c;
  (* Make the message *)
  m ← liftR (createMsg hashProto k1Sign typ duty peerIdx round valueHash
               value pr pvHash pv justification (privkey c) pointerValues);
  (* Send to self (async since buffer is blocking). *)
  _ ← go m;
  sendPeers c (ToConsensusMsg m) (peers c).
End Transport.

(** What the loop of [ProcessReceives] meets at its [select]s: the outer
    [select] takes the done case, or it takes a message from the outer
    buffer; for a message, [innerCtxDone] tells whether the inner
    [select] takes the done case rather than the send on the inner
    buffer. Which case a [select] takes when both are ready is the
    runtime's choice; the schedule records it. *)
Inductive recvEvent : Type :=
| CtxDone
| Recv (m : msg) (innerCtxDone : bool).

(** [log.Warn(ctx, "Dropping invalid message", err)]. *)
Definition log_Warn (e : error) : M unit := effect (emit (EvWarn e)).

(** The loop of [ProcessReceives], for a validation function [validate].
    When the schedule is exhausted the loop is blocked at its [select]. *)
Fixpoint ProcessReceivesWith (validate : msg -> option error)
    (outerBuffer : list recvEvent) : M unit :=
  match outerBuffer with
  | [] => mret tt
  | CtxDone :: _ => mret tt
  | Recv m innerCtxDone :: rest =>
      match validate m with
      | Some err =>
          _ ← log_Warn err;
          ProcessReceivesWith validate rest
      | None =>
          _ ← setValues m;
          if innerCtxDone then mret tt
          else (_ ← enqueue m;
                _ ← sniffer_Add (ToConsensusMsg m);
                ProcessReceivesWith validate rest)
      end
  end.

(** [ProcessReceives] processes received messages from the outer buffer
    until the context is closed. *)
Definition ProcessReceives (outerBuffer : list recvEvent) : M unit :=
  ProcessReceivesWith validateMsg outerBuffer.

(** ** Vocabulary of the statements *)

(** The identities of the peers of [ps] other than [self], in the order of
    the operator set. *)
Definition remoteIDs (self : string) (ps : list Peer) : list string :=
  filter (fun d => d <> self) (ID <$> ps).

Definition remotePeers (c : Component) : list string :=
  remoteIDs (tcpNodeID c) (peers c).

(** The world after [SendAsync] was invoked with [m] for each of [dests],
    in order. *)
Definition sent (m : ConsensusMsg) (dests : list string) (w : world) : world :=
  foldl (fun w d => emit (EvSend d m) w) w dests.

(** The entry [sniffer.Add] appends for [m] at time [now]. *)
Definition sniffed (now : Z) (m : msg) : SniffedConsensusMsg :=
  {| Timestamp := now; sniffed_Msg := ToConsensusMsg m |}.

(** The messages a schedule of [ProcessReceives] takes from the outer
    buffer, in order. *)
Definition received (outerBuffer : list recvEvent) : list msg :=
  omap (fun ev => match ev with Recv m _ => Some m | CtxDone => None end)
       outerBuffer.

(** The dynamic type of a justification is [msg]. *)
Definition isImpl (j : qbftMsg) : Prop := exists impl, j = ImplMsg impl.

(** All bytes, in increasing order. *)
Definition allBytes : list byte :=
  omap (fun n => Byte.of_N (N.of_nat n)) (seq 0 256).

(** [w'] differs from [w] at most in the random source, from which at
    most one byte was drawn. *)
Definition sameButRand (w w' : world) : Prop :=
  t_values w' = t_values w /\ t_recvBuffer w' = t_recvBuffer w /\
  t_sniffer w' = t_sniffer w /\ w_now w' = w_now w /\
  w_goroutines w' = w_goroutines w /\ w_trace w' = w_trace w /\
  (w_rand w' = w_rand w \/ w_rand w' = tail (w_rand w)).

(** The sniffer entries of the messages [ms] when they are added one
    after the other and the wall clock reads [now] at the first addition,
    [ticks 0] at the second, [ticks 1] at the third, and so on. *)
Fixpoint stamped (now : Z) (ticks : nat -> Z) (ms : list msg)
    : list SniffedConsensusMsg :=
  match ms with
  | [] => []
  | m :: ms' => sniffed now m :: stamped (ticks 0%nat) (fun k => ticks (S k)) ms'
  end.

(** The exact value of a finite float, as a numerator and a positive
    denominator. *)
Definition float_as_ratio (f : float) : option (Z * Z) :=
  match Prim2SF f with
  | S754_zero _ => Some (0, 1)%Z
  | S754_finite s m e =>
      let n := if s then Z.neg m else Z.pos m in
      Some (if (0 <=? e)%Z then (n * 2 ^ e, 1)%Z else (n, 2 ^ (- e))%Z)
  | _ => None
  end.

(** ** Concrete data for the examples *)

Definition demoHash (m : QBFTMsg) : vec byte 32 :=
  vreplicate 32 (default x00 (Byte.of_N (Z.to_N (Round m `mod` 256)%Z))).

Definition demoSign (privkey : Z) (digest : vec byte 32) : result (list byte) :=
  if decide (privkey = 0%Z) then Err (errors_New "invalid private key")
  else Ok (vec_to_list digest ++ vec_to_list digest ++ [x01]).

Definition hashA : vec byte 32 := vinsert 0%fin x0a zeroHash.
Definition hashB : vec byte 32 := vinsert 1%fin x0b zeroHash.

Definition valA : Any :=
  {| TypeUrl := "type.googleapis.com/core.corepb.v1.UnsignedDataSet";
     AnyValue := [x0a; x01] |}.
Definition valB : Any :=
  {| TypeUrl := "type.googleapis.com/core.corepb.v1.UnsignedDataSet";
     AnyValue := [x0b; x02; x03] |}.

Definition demoDuty : Duty := {| Slot := 123; DutyType := 2 |}.

(** A received prepare of peer 1 for [hashA], with [valA] in its
    side-map and no signature. *)
Definition unsignedPrepare : msg :=
  Msg {| Type_ := 2; Duty_ := DutyToProto demoDuty; PeerIdx := 1; Round := 1;
         Value := None; ValueHash := vec_to_list hashA;
         PreparedRound := 0; PreparedValue := None;
         PreparedValueHash := vec_to_list zeroHash; Signature := [] |}
      [] {[ hashA := valA ]}.

(** A round change that carries a justification of its own. *)
Definition nestedRoundChange : msg :=
  Msg {| Type_ := 4; Duty_ := DutyToProto demoDuty; PeerIdx := 2; Round := 2;
         Value := None; ValueHash := vec_to_list zeroHash;
         PreparedRound := 1; PreparedValue := None;
         PreparedValueHash := vec_to_list hashA; Signature := [x01] |}
      [unsignedPrepare] ∅.

Definition demoPeers : list Peer :=
  [ {| ID := "peer0" |}; {| ID := "peer1" |}; {| ID := "peer2" |};
    {| ID := "peer3" |} ].

(** Node [peer0] of a cluster of four, whose sends all succeed. *)
Definition demoComponent : Component :=
  {| peers := demoPeers; tcpNodeID := "peer0";
     sender := fun _ _ => None; privkey := 7;
     legacyProbability := 0.5%float |}.

(** The same node when sending to [peer2] fails. *)
Definition faultyComponent : Component :=
  {| peers := demoPeers; tcpNodeID := "peer0";
     sender := fun dest _ =>
       if decide (dest = "peer2") then Some (errors_New "send failed") else None;
     privkey := 7; legacyProbability := 0.5%float |}.

(** A fresh transport that knows [valA], with a random source about to
    deliver the byte 200. *)
Definition demoWorld : world :=
  {| t_values := {[ hashA := valA ]}; t_recvBuffer := [];
     t_sniffer := newSniffer 4 0 1000; w_rand := [xc8]; w_now := 1001;
     w_ticks := fun k => (1003 + 2 * Z.of_nat k)%Z;
     w_goroutines := []; w_trace := [] |}.

(** A node that never uses the legacy encoding. *)
Definition pointerOnlyComponent : Component :=
  {| peers := demoPeers; tcpNodeID := "peer0";
     sender := fun _ _ => None; privkey := 7;
     legacyProbability := 0%float |}.

(** A fresh transport with an empty value store. *)
Definition freshWorld : world :=
  {| t_values := ∅; t_recvBuffer := [];
     t_sniffer := newSniffer 4 0 1000; w_rand := [x10]; w_now := 1001;
     w_ticks := fun k => (1003 + 2 * Z.of_nat k)%Z;
     w_goroutines := []; w_trace := [] |}.

(** A prepare for round 0 with a value hash of three bytes and no
    signature. *)
Definition malformedPrepare : msg :=
  Msg {| Type_ := 2; Duty_ := DutyToProto demoDuty; PeerIdx := 1; Round := 0;
         Value := None; ValueHash := [x01; x02; x03];
         PreparedRound := 0; PreparedValue := None;
         PreparedValueHash := []; Signature := [] |}
      [] ∅.

(** A validation that rejects messages whose signature is not 65 bytes
    long. *)
Definition requireSignature (m : msg) : option error :=
  if decide (length (Signature (msg_msg m)) = 65) then None
  else Some (errors_New "invalid signature length").

(** A node that is configured to use the legacy encoding only. *)
Definition legacyOnlyComponent : Component :=
  {| peers := demoPeers; tcpNodeID := "peer0";
     sender := fun _ _ => None; privkey := 7;
     legacyProbability := 1%float |}.

(** A proposal of peer 3 that carries [valB] under [hashB]. *)
Definition prePrepareB : msg :=
  Msg {| Type_ := 1; Duty_ := DutyToProto demoDuty; PeerIdx := 3; Round := 1;
         Value := Some valB; ValueHash := vec_to_list hashB;
         PreparedRound := 0; PreparedValue := None;
         PreparedValueHash := vec_to_list zeroHash; Signature := [x02] |}
      [] {[ hashB := valB ]}.

(** ** Properties of the codec *)

Section CodecFacts.
Context (hashProto : QBFTMsg -> vec byte 32).
Context (k1Sign : Z -> vec byte 32 -> result (list byte)).

Lemma justProtos_app (impls : list msg) (acc : list QBFTMsg) :
  justProtos (ImplMsg <$> impls) acc = Ok (acc ++ (msg_msg <$> impls)).
Proof.
  revert acc. induction impls as [|j impls IH]; intros acc; simpl.
  - by rewrite app_nil_r.
  - rewrite IH. by rewrite <- app_assoc.
Qed.

Lemma justProtos_inv (js : list qbftMsg) (acc r : list QBFTMsg) :
  justProtos js acc = Ok r ->
  exists impls, js = ImplMsg <$> impls /\ r = acc ++ (msg_msg <$> impls).
Proof.
  revert acc. induction js as [|[impl|tag] js IH]; intros acc H; simpl in H.
  - exists []. simpl. rewrite app_nil_r. by inversion H.
  - destruct (IH _ H) as (impls & -> & ->).
    exists (impl :: impls). simpl. by rewrite <- app_assoc.
  - discriminate.
Qed.

(** What a successful [createMsg] returns. *)
Lemma createMsg_inv typ duty peerIdx round vHash value pr pvHash pv
    justification privkey pointerValues m :
  createMsg hashProto k1Sign typ duty peerIdx round vHash value pr pvHash pv
    justification privkey pointerValues = Ok m ->
  let values : gmap (vec byte 32) Any :=
    if pointerValues
    then (match pv with Some p => <[pvHash := p]> | None => id end)
           (match value with Some v => <[vHash := v]> ∅ | None => ∅ end)
    else ∅ in
  let pbMsg :=
    envelope typ duty peerIdx round
      (if pointerValues then vHash else zeroHash) value pr
      (if pointerValues then pvHash else zeroHash) pv in
  exists sig impls,
    k1Sign privkey (hashProto pbMsg) = Ok sig /\
    justification = ImplMsg <$> impls /\
    m = Msg (set_Signature sig pbMsg)
            ((fun j => Msg j [] values) <$> (msg_msg <$> impls)) values.
Proof.
  unfold createMsg, signMsg. cbn zeta.
  change (set_Signature [] (envelope ?a ?b ?c ?d ?e ?f ?g ?h ?i))
    with (envelope a b c d e f g h i).
  unfold mbind, result_bind.
  destruct (k1Sign _ _) as [sig|e] eqn:Hsig; [|discriminate].
  destruct (justProtos justification []) as [justMsgs|e] eqn:Hj; [|discriminate].
  apply justProtos_inv in Hj as (impls & -> & ->). simpl.
  unfold newMsg. intros [= <-]. exists sig, impls.
  split; [done|]. split; [done|].
  destruct pointerValues, value, pv; reflexivity.
Qed.

(** [createMsg] succeeds when signing does and every justification is a
    [msg]. *)
Lemma createMsg_total typ duty peerIdx round (vHash : vec byte 32) value pr
    (pvHash : vec byte 32) pv impls privkey (pointerValues : bool) sig :
  k1Sign privkey
    (hashProto (envelope typ duty peerIdx round
       (if pointerValues then vHash else zeroHash) value pr
       (if pointerValues then pvHash else zeroHash) pv)) = Ok sig ->
  exists m,
    createMsg hashProto k1Sign typ duty peerIdx round vHash value pr pvHash
      pv (ImplMsg <$> impls) privkey pointerValues = Ok m.
Proof.
  intros Hsig. unfold createMsg, signMsg. cbn zeta.
  change (set_Signature [] (envelope ?a ?b ?c ?d ?e ?f ?g ?h ?i))
    with (envelope a b c d e f g h i).
  unfold mbind, result_bind. rewrite Hsig, justProtos_app. simpl.
  unfold newMsg. eauto.
Qed.

Lemma vec_to_list_zeroHash : vec_to_list zeroHash = replicate 32 x00.
Proof. reflexivity. Qed.
End CodecFacts.

Section CodecClaims.
Context (hashProto : QBFTMsg -> vec byte 32).
Context (k1Sign : Z -> vec byte 32 -> result (list byte)).

Lemma flattened_depth (values : gmap (vec byte 32) Any) (l : list QBFTMsg) :
  foldr Nat.max 0
    (map justification_depth ((fun j => Msg j [] values) <$> l)) = 0.
Proof.
  induction l as [|j l IH]; [done|].
  rewrite fmap_cons. cbn [map foldr]. by rewrite IH.
Qed.

(** C3, as amended: a message built by [createMsg] in legacy mode
    ([pointerValues = false]) has an empty side-map, carries the full
    values in the inline [Value] / [PreparedValue] fields, and both of
    its wire hash fields are the 32-byte all-zero hash; the hash fields
    are 32 bytes long in either mode. *)
Theorem C3_legacy_mode_message typ duty peerIdx round (vHash : vec byte 32)
    value pr (pvHash : vec byte 32) pv justification privkey
    (pointerValues : bool) m :
  createMsg hashProto k1Sign typ duty peerIdx round vHash value pr pvHash pv
    justification privkey pointerValues = Ok m ->
  length (ValueHash (msg_msg m)) = 32 /\
  length (PreparedValueHash (msg_msg m)) = 32 /\
  (pointerValues = false ->
     msg_values m = ∅ /\
     cm_Values (ToConsensusMsg m) = ∅ /\
     Value (msg_msg m) = value /\
     PreparedValue (msg_msg m) = pv /\
     ValueHash (msg_msg m) = replicate 32 x00 /\
     PreparedValueHash (msg_msg m) = replicate 32 x00).
Proof.
  intros H. apply createMsg_inv in H as (sig & impls & _ & _ & ->).
  cbn [msg_msg msg_values set_Signature envelope ValueHash PreparedValueHash
       Value PreparedValue ToConsensusMsg cm_Values].
  rewrite !length_vec_to_list.
  split; [done|]. split; [done|]. intros ->.
  by rewrite vec_to_list_zeroHash.
Qed.

(** C4, as amended: a message built by [createMsg] from a non-zero
    [value_hash] and a non-nil value always carries the full value in
    the legacy inline field; in pointer mode the wire hash is the value
    hash and the side-map has an entry under it as well (the value,
    unless the prepared value was stored under the same hash), in
    legacy mode the wire hash is zero and the side-map is empty. *)
Theorem C4_value_formats typ duty peerIdx round (vHash : vec byte 32)
    (v : Any) pr (pvHash : vec byte 32) (pv : option Any) justification
    privkey (pointerValues : bool) m :
  vHash <> zeroHash ->
  createMsg hashProto k1Sign typ duty peerIdx round vHash (Some v) pr pvHash
    pv justification privkey pointerValues = Ok m ->
  Value (msg_msg m) = Some v /\
  (pointerValues = true ->
     ValueHash (msg_msg m) = vec_to_list vHash /\
     msg_values m !! vHash =
       Some (match pv with
             | Some p => if decide (pvHash = vHash) then p else v
             | None => v
             end)) /\
  (pointerValues = false ->
     ValueHash (msg_msg m) = vec_to_list zeroHash /\
     msg_values m = ∅).
Proof.
  intros _ H. apply createMsg_inv in H as (sig & impls & _ & _ & ->).
  cbn [msg_msg msg_values set_Signature envelope ValueHash Value].
  split; [done|]. split; intros ->; [|done].
  split; [done|]. destruct pv as [p|]; simpl.
  - destruct (decide (pvHash = vHash)) as [->|Hne].
    + by rewrite lookup_insert_eq.
    + rewrite lookup_insert_ne by done. by rewrite lookup_insert_eq.
  - by rewrite lookup_insert_eq.
Qed.

(** C5: for every justification list given to [createMsg], the message
    built embeds only the envelope of each justification: on the wire
    the justifications are the envelopes of the given messages, each
    embedded justification has an empty justification list of its own,
    and the justification depth of the message is at most 1. *)
Theorem C5_justifications_flattened typ duty peerIdx round vHash value pr
    pvHash pv justification privkey pointerValues m :
  createMsg hashProto k1Sign typ duty peerIdx round vHash value pr pvHash pv
    justification privkey pointerValues = Ok m ->
  (exists impls,
      justification = ImplMsg <$> impls /\
      cm_Justification (ToConsensusMsg m) = msg_msg <$> impls /\
      msg_msg <$> msg_justification m = msg_msg <$> impls) /\
  Forall (fun j => msg_justification j = []) (msg_justification m) /\
  justification_depth m <= 1.
Proof.
  intros H. apply createMsg_inv in H as (sig & impls & _ & -> & ->).
  cbn [msg_justification ToConsensusMsg cm_Justification].
  split; [|split].
  - exists impls. split; [done|].
    rewrite <- !list_fmap_compose.
    split; by apply list_fmap_ext.
  - apply Forall_fmap, Forall_true. done.
  - cbn [justification_depth]. rewrite flattened_depth.
    destruct (_ <$> _); lia.
Qed.

(** C10: the signature [createMsg] produces covers only the envelope,
    which is signed before justifications and side-map are attached:
    the signature of the message built is the signature of the hash of
    the envelope, and two calls that agree on the envelope fields and
    the key return the same signed envelope whatever their
    justification lists and side-maps are. *)
Theorem C10_signature_covers_envelope_only typ duty peerIdx round
    (vHash vHash' : vec byte 32) value pr (pvHash pvHash' : vec byte 32) pv
    justification justification' privkey (pointerValues pointerValues' : bool)
    m m' :
  createMsg hashProto k1Sign typ duty peerIdx round vHash value pr pvHash pv
    justification privkey pointerValues = Ok m ->
  createMsg hashProto k1Sign typ duty peerIdx round vHash' value pr pvHash'
    pv justification' privkey pointerValues' = Ok m' ->
  (if pointerValues then vHash else zeroHash)
    = (if pointerValues' then vHash' else zeroHash) ->
  (if pointerValues then pvHash else zeroHash)
    = (if pointerValues' then pvHash' else zeroHash) ->
  k1Sign privkey
    (hashProto (envelope typ duty peerIdx round
       (if pointerValues then vHash else zeroHash) value pr
       (if pointerValues then pvHash else zeroHash) pv))
    = Ok (Signature (msg_msg m)) /\
  msg_msg m = msg_msg m' /\
  cm_Msg (ToConsensusMsg m) = cm_Msg (ToConsensusMsg m').
Proof.
  intros H H' Hv Hpv.
  apply createMsg_inv in H as (sig & impls & Hsig & _ & ->).
  apply createMsg_inv in H' as (sig' & impls' & Hsig' & _ & ->).
  cbn zeta in *. rewrite <- Hv, <- Hpv in Hsig'.
  rewrite Hsig in Hsig'. injection Hsig' as <-.
  cbn [msg_msg ToConsensusMsg cm_Msg]. rewrite <- Hv, <- Hpv.
  split; [|done]. by rewrite Hsig.
Qed.
End CodecClaims.

Lemma hashA_nonzero : hashA <> zeroHash.
Proof. discriminate. Qed.

Lemma C3_legacy_mode_message_witness :
  exists m,
    createMsg demoHash demoSign 1 demoDuty 0 1 hashA (Some valA) 0 zeroHash
      None [] 7 false = Ok m /\
    msg_values m = ∅ /\ Value (msg_msg m) = Some valA /\
    ValueHash (msg_msg m) = replicate 32 x00.
Proof.
  eexists. split; [reflexivity|].
  pose proof (C3_legacy_mode_message demoHash demoSign 1 demoDuty 0 1 hashA
                (Some valA) 0 zeroHash None [] 7 false _ eq_refl)
    as (_ & _ & H).
  destruct (H eq_refl) as (Hm & _ & Hv & _ & Hh & _). auto.
Defined.

(** C3, as stated, fails: in legacy mode the wire hash fields are not
    zero-length but 32 zero bytes. *)
Lemma C3_zero_length_hash_counterexample :
  exists m,
    createMsg demoHash demoSign 1 demoDuty 0 1 hashA (Some valA) 0 zeroHash
      None [] 7 false = Ok m /\
    length (ValueHash (msg_msg m)) = 32 /\
    ValueHash (msg_msg m) <> [] /\
    PreparedValueHash (msg_msg m) <> [].
Proof. eexists. split; [reflexivity|]. repeat split; discriminate. Qed.

Lemma C4_value_formats_witness :
  exists m,
    createMsg demoHash demoSign 1 demoDuty 0 1 hashA (Some valA) 1 hashB
      (Some valB) [] 7 true = Ok m /\
    Value (msg_msg m) = Some valA /\
    msg_values m !! hashA = Some valA.
Proof.
  eexists. split; [reflexivity|].
  destruct (C4_value_formats demoHash demoSign 1 demoDuty 0 1 hashA valA 1
              hashB (Some valB) [] 7 true _ hashA_nonzero eq_refl)
    as (Hv & Hp & _).
  destruct (Hp eq_refl) as [_ Hl]. split; [exact Hv|exact Hl].
Defined.

(** C4, as stated, fails: a message built in pointer mode carries the
    value in both formats, in the side-map and in the inline field. *)
Lemma C4_both_formats_counterexample :
  exists m,
    createMsg demoHash demoSign 1 demoDuty 0 1 hashA (Some valA) 0 zeroHash
      None [] 7 true = Ok m /\
    hashA <> zeroHash /\
    ValueHash (msg_msg m) = vec_to_list hashA /\
    msg_values m !! hashA = Some valA /\
    Value (msg_msg m) = Some valA.
Proof.
  eexists. split; [reflexivity|]. split; [discriminate|].
  split; [reflexivity|]. split; [|reflexivity].
  cbn [msg_values]. by rewrite lookup_insert_eq.
Qed.

Lemma C5_justifications_flattened_witness :
  justification_depth nestedRoundChange = 1 /\
  exists m,
    createMsg demoHash demoSign 1 demoDuty 0 3 hashA (Some valA) 0 zeroHash
      None [ImplMsg nestedRoundChange] 7 true = Ok m /\
    cm_Justification (ToConsensusMsg m) = [msg_msg nestedRoundChange] /\
    Forall (fun j => msg_justification j = []) (msg_justification m) /\
    justification_depth m <= 1.
Proof.
  split; [reflexivity|]. eexists. split; [reflexivity|].
  destruct (C5_justifications_flattened demoHash demoSign 1 demoDuty 0 3 hashA
              (Some valA) 0 zeroHash None [ImplMsg nestedRoundChange] 7 true
              _ eq_refl) as (_ & Hf & Hd).
  split; [reflexivity|]. split; [exact Hf|exact Hd].
Defined.

Lemma C10_signature_covers_envelope_only_witness :
  exists m m',
    createMsg demoHash demoSign 1 demoDuty 0 3 zeroHash (Some valA) 0 zeroHash
      None [ImplMsg nestedRoundChange] 7 true = Ok m /\
    createMsg demoHash demoSign 1 demoDuty 0 3 hashA (Some valA) 0 zeroHash
      None [] 7 false = Ok m' /\
    msg_justification m <> msg_justification m' /\
    msg_values m !! zeroHash <> msg_values m' !! zeroHash /\
    msg_msg m = msg_msg m'.
Proof.
  eexists. eexists. split; [reflexivity|]. split; [reflexivity|].
  split; [discriminate|]. split; [vm_compute; discriminate|].
  apply (C10_signature_covers_envelope_only demoHash demoSign 1 demoDuty 0 3
           zeroHash hashA (Some valA) 0 zeroHash zeroHash None
           [ImplMsg nestedRoundChange] [] 7 true false _ _
           eq_refl eq_refl eq_refl eq_refl).
Defined.

(** ** Properties of the transport *)

Ltac unfoldM :=
  unfold mbind, M_bind, mret, M_ret, effect, liftR in *; cbn beta in *.

Lemma fold_insert_lookup (mv store : gmap (vec byte 32) Any) (k : vec byte 32) :
  map_fold (fun k v values => <[k := v]> values) store mv !! k
  = match mv !! k with Some v => Some v | None => store !! k end.
Proof.
  apply (map_fold_weak_ind
           (fun r (mv : gmap (vec byte 32) Any) =>
              r !! k = match mv !! k with Some v => Some v | None => store !! k end)).
  - by rewrite lookup_empty.
  - intros i x m r Hi IH. destruct (decide (i = k)) as [->|Hne].
    + by rewrite !lookup_insert_eq.
    + by rewrite !lookup_insert_ne.
Qed.

Lemma setValues_lookup (m : msg) (w : world) (k : vec byte 32) :
  t_values (snd (setValues m w)) !! k
  = match msg_values m !! k with Some v => Some v | None => t_values w !! k end.
Proof. apply fold_insert_lookup. Qed.

Lemma sent_app m ds1 ds2 w : sent m (ds1 ++ ds2) w = sent m ds2 (sent m ds1 w).
Proof. apply foldl_app. Qed.

Lemma sent_cons m d ds w : sent m (d :: ds) w = sent m ds (emit (EvSend d m) w).
Proof. reflexivity. Qed.

(** Sending touches nothing but the history. *)
Lemma sent_frame m ds w :
  t_values (sent m ds w) = t_values w /\
  t_recvBuffer (sent m ds w) = t_recvBuffer w /\
  t_sniffer (sent m ds w) = t_sniffer w /\
  w_rand (sent m ds w) = w_rand w /\
  w_now (sent m ds w) = w_now w /\
  w_goroutines (sent m ds w) = w_goroutines w /\
  w_trace (sent m ds w) = w_trace w ++ ((fun d => EvSend d m) <$> ds).
Proof.
  revert w. induction ds as [|d ds IH]; intros w.
  - simpl. by rewrite app_nil_r.
  - rewrite sent_cons. destruct (IH (emit (EvSend d m) w))
      as (-> & -> & -> & -> & -> & -> & ->).
    simpl. by rewrite <- app_assoc.
Qed.

Lemma sends_sent m ds w :
  sends (sent m ds w) = sends w ++ ((fun d => (d, m)) <$> ds).
Proof.
  unfold sends. destruct (sent_frame m ds w) as (_ & _ & _ & _ & _ & _ & ->).
  rewrite omap_app. f_equal.
  induction ds as [|d ds IH]; [done|].
  rewrite !fmap_cons. cbn [omap list_omap]. by rewrite IH.
Qed.

Lemma remoteIDs_cons_self self p ps :
  ID p = self -> remoteIDs self (p :: ps) = remoteIDs self ps.
Proof.
  intros H. unfold remoteIDs. rewrite fmap_cons, filter_cons.
  by rewrite decide_False by (intros Hne; by apply Hne).
Qed.

Lemma remoteIDs_cons_other self p ps :
  ID p <> self -> remoteIDs self (p :: ps) = ID p :: remoteIDs self ps.
Proof.
  intros H. unfold remoteIDs. rewrite fmap_cons, filter_cons.
  by rewrite decide_True.
Qed.

Lemma remoteIDs_length self ps :
  length (remoteIDs self ps) + length (filter (fun p => ID p = self) ps)
  = length ps.
Proof.
  induction ps as [|p ps IH]; [done|].
  rewrite filter_cons. destruct (decide (ID p = self)) as [Heq|Hne].
  - rewrite remoteIDs_cons_self by done. simpl. lia.
  - rewrite remoteIDs_cons_other by done. simpl. lia.
Qed.

Lemma remoteIDs_not_self self ps : self ∉ remoteIDs self ps.
Proof. unfold remoteIDs. rewrite list_elem_of_filter. by intros [Hne _]. Qed.

(** The fan-out when no send fails: one [SendAsync] per remote peer. *)
Lemma sendPeers_ok c m ps w :
  Forall (fun d => sender c d m = None) (remoteIDs (tcpNodeID c) ps) ->
  sendPeers c m ps w = (Ok tt, sent m (remoteIDs (tcpNodeID c) ps) w).
Proof.
  revert w. induction ps as [|p ps IH]; intros w Hall; [done|].
  simpl. destruct (decide (ID p = tcpNodeID c)) as [Heq|Hne].
  - rewrite remoteIDs_cons_self in * by done. by apply IH.
  - rewrite remoteIDs_cons_other in * by done.
    apply Forall_cons in Hall as [Hd Hall].
    unfoldM. unfold SendAsync. rewrite Hd. rewrite sent_cons. by apply IH.
Qed.

(** The fan-out when the send to [d] is the first to fail: the peers
    after [d] are not tried and the error of [d] is returned. *)
Lemma sendPeers_fail c m ps w pre d post e :
  remoteIDs (tcpNodeID c) ps = pre ++ d :: post ->
  Forall (fun q => sender c q m = None) pre ->
  sender c d m = Some e ->
  sendPeers c m ps w = (Err e, sent m (pre ++ [d]) w).
Proof.
  revert w pre. induction ps as [|p ps IH]; intros w pre Hsplit Hpre Hd.
  - by destruct pre.
  - simpl. destruct (decide (ID p = tcpNodeID c)) as [Heq|Hne].
    + rewrite remoteIDs_cons_self in Hsplit by done. by apply IH.
    + rewrite remoteIDs_cons_other in Hsplit by done.
      unfoldM. unfold SendAsync. destruct pre as [|q pre].
      * simpl in Hsplit. injection Hsplit as -> _. by rewrite Hd.
      * simpl in Hsplit. injection Hsplit as -> Hsplit.
        apply Forall_cons in Hpre as [Hq Hpre]. rewrite Hq.
        simpl app. rewrite sent_cons. by apply IH.
Qed.


Lemma deref_world (h : vec byte 32) (w : world) : snd (deref h w) = w.
Proof.
  unfold deref. destruct (decide _); [done|].
  unfoldM. unfold getValue. by destruct (t_values w !! h).
Qed.

Lemma deref_zeroHash (w : world) : deref zeroHash w = (Ok None, w).
Proof. unfold deref. by rewrite decide_True. Qed.

Lemma fraction_nonneg (b : byte) : PrimFloat.leb 0%float (fraction b) = true.
Proof. destruct b; vm_compute; reflexivity. Qed.



(** The fraction ranges over [0, 1]: the byte 255 gives exactly 1, so a
    legacy probability of 1 still selects pointer mode for that byte. *)
Lemma fraction_bounds :
  fraction x00 = 0%float /\ fraction xff = 1%float /\
  PrimFloat.leb 1%float (fraction xff) = true /\
  PrimFloat.leb 1%float (fraction xfe) = false.
Proof. repeat split; vm_compute; reflexivity. Qed.

(** The float quotient [float64(b) / 255] is the real quotient [b / 255]
    up to a rounding error of at most 2^-54. *)
Lemma quotient_exact (b : byte) :
  let n := Z.of_N (Byte.to_N b) in
  exists num den,
    float_as_ratio
      (PrimFloat.div (PrimFloat.of_uint63 (Uint63.of_Z n)) 255%float)
    = Some (num, den) /\
    (0 < den)%Z /\
    (Z.abs (255 * num - n * den) * 2 ^ 54 <= 255 * den)%Z.
Proof.
  destruct b; cbv zeta;
    (eexists _, _; split; [vm_compute; reflexivity|];
     split; [reflexivity|vm_compute; discriminate]).
Qed.

(** Where the quotient stands against a legacy probability of a quarter,
    a half, three quarters and one. *)
Lemma quotient_thresholds (b : byte) :
  let n := Z.of_N (Byte.to_N b) in
  let quotient :=
    PrimFloat.div (PrimFloat.of_uint63 (Uint63.of_Z n)) 255%float in
  PrimFloat.leb 0.25%float quotient = bool_decide (64 <= n)%Z /\
  PrimFloat.leb 0.5%float quotient = bool_decide (128 <= n)%Z /\
  PrimFloat.leb 0.75%float quotient = bool_decide (192 <= n)%Z /\
  PrimFloat.leb 1%float quotient = bool_decide (n = 255)%Z.
Proof. destruct b; vm_compute; repeat split. Qed.

Section TransportClaims.
Context (hashProto : QBFTMsg -> vec byte 32).
Context (k1Sign : Z -> vec byte 32 -> result (list byte)).

(** The world [Broadcast] starts its fan-out in, and what it does from
    there, once the hashes are resolved and the message is built. *)
Lemma Broadcast_built c typ duty peerIdx round valueHash pr pvHash
    justification w value pv pointerValues w1 m :
  deref valueHash w = (Ok value, w) ->
  deref pvHash w = (Ok pv, w) ->
  usePointerValues c w = (Ok pointerValues, w1) ->
  createMsg hashProto k1Sign typ duty peerIdx round valueHash value pr
    pvHash pv justification (privkey c) pointerValues = Ok m ->
  Broadcast hashProto k1Sign c typ duty peerIdx round valueHash pr pvHash
    justification w
  = sendPeers c (ToConsensusMsg m) (peers c) (snd (go m w1)).
Proof.
  intros Hv Hpv Hptr Hm. unfold Broadcast.
  unfold mbind at 1, M_bind at 1. rewrite Hv.
  unfold mbind at 1, M_bind at 1. rewrite Hpv.
  unfold mbind at 1, M_bind at 1. rewrite Hptr.
  unfold mbind at 1, M_bind at 1. unfold liftR. rewrite Hm.
  reflexivity.
Qed.

(** C1: when [valueHash] (or [pvHash]) is non-zero and has no entry in
    the value store, [Broadcast] returns the [UnknownValue] error and
    leaves the world as it was: no [SendAsync] is invoked, nothing is
    enqueued on the inner buffer and no loopback goroutine is started. *)
Theorem C1_Broadcast_unknown_value c typ duty peerIdx round
    (valueHash : vec byte 32) pr (pvHash : vec byte 32) justification w :
  (valueHash <> zeroHash /\ t_values w !! valueHash = None) \/
  (pvHash <> zeroHash /\ t_values w !! pvHash = None) ->
  let r := Broadcast hashProto k1Sign c typ duty peerIdx round valueHash pr
             pvHash justification w in
  fst r = Err UnknownValue /\
  snd r = w /\
  sends (snd r) = sends w /\
  t_recvBuffer (snd r) = t_recvBuffer w /\
  w_goroutines (snd r) = w_goroutines w.
Proof.
  intros H r.
  assert (r = (Err UnknownValue, w)) as ->; [|done].
  subst r. unfold Broadcast, deref. unfoldM. unfold getValue.
  destruct H as [[Hnz Hnone]|[Hnz Hnone]].
  - rewrite decide_False by done. by rewrite Hnone.
  - destruct (decide (valueHash = zeroHash)).
    + rewrite decide_False by done. by rewrite Hnone.
    + destruct (t_values w !! valueHash); [|done].
      rewrite decide_False by done. by rewrite Hnone.
Qed.


(** C8: a [Broadcast] that has built its message, over an operator set
    that contains the local identity exactly once, invokes [SendAsync]
    once for each of the n-1 peers whose identity differs from the
    local one, in order, and never for the local identity, and returns
    nil when no send fails; when the send to a peer fails, the peers
    after it are not tried and that first error is returned. *)
Theorem C8_fan_out c typ duty peerIdx round valueHash pr pvHash
    justification w value pv pointerValues w1 m :
  length (filter (fun p => ID p = tcpNodeID c) (peers c)) = 1 ->
  deref valueHash w = (Ok value, w) ->
  deref pvHash w = (Ok pv, w) ->
  usePointerValues c w = (Ok pointerValues, w1) ->
  createMsg hashProto k1Sign typ duty peerIdx round valueHash value pr
    pvHash pv justification (privkey c) pointerValues = Ok m ->
  let r := Broadcast hashProto k1Sign c typ duty peerIdx round valueHash pr
             pvHash justification w in
  let cm := ToConsensusMsg m in
  length (remotePeers c) = length (peers c) - 1 /\
  (tcpNodeID c ∉ remotePeers c) /\
  (Forall (fun d => sender c d cm = None) (remotePeers c) ->
     fst r = Ok tt /\
     sends (snd r) = sends w ++ ((fun d => (d, cm)) <$> remotePeers c) /\
     length (sends (snd r)) = length (sends w) + (length (peers c) - 1)) /\
  (forall pre d post e,
     remotePeers c = pre ++ d :: post ->
     Forall (fun q => sender c q cm = None) pre ->
     sender c d cm = Some e ->
     fst r = Err e /\
     sends (snd r) = sends w ++ ((fun d => (d, cm)) <$> (pre ++ [d]))).
Proof.
  intros Hself Hv Hpv Hptr Hm r cm. subst r.
  rewrite (Broadcast_built _ _ _ _ _ _ _ _ _ _ _ _ _ _ _ Hv Hpv Hptr Hm).
  fold cm.
  assert (sends (snd (go m w1)) = sends w) as Hsends.
  { revert Hptr. unfold usePointerValues, randRead. unfoldM.
    unfold sends. destruct (w_rand w); intros [= _ <-]; simpl;
      rewrite omap_app; simpl; by rewrite app_nil_r. }
  assert (length (remotePeers c) = length (peers c) - 1) as Hlen.
  { pose proof (remoteIDs_length (tcpNodeID c) (peers c)).
    unfold remotePeers. lia. }
  split; [done|]. split; [apply remoteIDs_not_self|]. split.
  - intros Hall. rewrite (sendPeers_ok _ _ _ _ Hall). cbn [fst snd].
    fold (remotePeers c). rewrite sends_sent, Hsends.
    split; [done|]. split; [done|].
    by rewrite length_app, length_fmap, Hlen.
  - intros pre d post e Hsplit Hpre Hd.
    rewrite (sendPeers_fail _ _ _ _ _ _ _ _ Hsplit Hpre Hd). cbn [fst snd].
    by rewrite sends_sent, Hsends.
Qed.

(** C9: [usePointerValues] takes one byte [b] from the random source
    and answers pointer mode exactly when the float64 quotient
    [float64(b) / 255], which is the fraction b/255 up to a rounding
    error of at most 2^-54, is at least [legacyProbability]: for a
    legacy probability of 1/4, 1/2, 3/4 and 1 that is for the bytes from
    64, 128, 192 and 255 on. When [legacyProbability] is 0 it always
    answers pointer mode, so every message [Broadcast] builds is built in
    pointer mode. *)
Theorem C9_usePointerValues c w :
  let b := hd x00 (w_rand w) in
  let n := Z.of_N (Byte.to_N b) in
  let quotient :=
    PrimFloat.div (PrimFloat.of_uint63 (Uint63.of_Z n)) 255%float in
  let r := usePointerValues c w in
  fst r = Ok (PrimFloat.leb (legacyProbability c) quotient) /\
  w_rand (snd r) = tail (w_rand w) /\
  (exists num den,
     float_as_ratio quotient = Some (num, den) /\ (0 < den)%Z /\
     (Z.abs (255 * num - n * den) * 2 ^ 54 <= 255 * den)%Z) /\
  (legacyProbability c = 0.25%float -> fst r = Ok (bool_decide (64 <= n)%Z)) /\
  (legacyProbability c = 0.5%float -> fst r = Ok (bool_decide (128 <= n)%Z)) /\
  (legacyProbability c = 0.75%float -> fst r = Ok (bool_decide (192 <= n)%Z)) /\
  (legacyProbability c = 1%float -> fst r = Ok (bool_decide (n = 255)%Z)) /\
  (legacyProbability c = 0%float -> fst r = Ok true) /\
  (legacyProbability c = 0%float ->
     forall typ duty peerIdx round valueHash pr pvHash justification value
            pv m,
       deref valueHash w = (Ok value, w) ->
       deref pvHash w = (Ok pv, w) ->
       createMsg hashProto k1Sign typ duty peerIdx round valueHash value pr
         pvHash pv justification (privkey c) true = Ok m ->
       Broadcast hashProto k1Sign c typ duty peerIdx round valueHash pr
         pvHash justification w
       = sendPeers c (ToConsensusMsg m) (peers c) (snd (go m (snd r)))).
Proof.
  intros b n quotient r. subst quotient n.
  assert (r = (Ok (PrimFloat.leb (legacyProbability c)
                     (PrimFloat.div
                        (PrimFloat.of_uint63
                           (Uint63.of_Z (Z.of_N (Byte.to_N b)))) 255%float)),
               snd r) /\
          w_rand (snd r) = tail (w_rand w)) as [Hr Hrand].
  { subst r b. unfold usePointerValues, randRead. unfoldM.
    destruct (w_rand w) eqn:E; simpl; by rewrite ?E. }
  assert (legacyProbability c = 0%float -> r = (Ok true, snd r)) as H0.
  { intros Hp. rewrite Hr at 1. rewrite Hp.
    pose proof (fraction_nonneg b) as Hnn.
    unfold fraction, float64_of_byte in Hnn. by rewrite Hnn. }
  destruct (quotient_thresholds b) as (Hq & Hh & Ht & Ho).
  cbv zeta in Hq, Hh, Ht, Ho.
  split; [by rewrite Hr|]. split; [done|].
  split; [apply quotient_exact|].
  split; [intros Hp; by rewrite Hr, Hp, Hq|].
  split; [intros Hp; by rewrite Hr, Hp, Hh|].
  split; [intros Hp; by rewrite Hr, Hp, Ht|].
  split; [intros Hp; by rewrite Hr, Hp, Ho|].
  split.
  - intros Hp. by rewrite (H0 Hp).
  - intros Hp typ duty peerIdx round valueHash pr pvHash justification
      value pv m Hv Hpv Hm.
    by apply (Broadcast_built _ _ _ _ _ _ _ _ _ _ _ _ _ _ _ Hv Hpv (H0 Hp) Hm).
Qed.
End TransportClaims.

(** C6: for a message taken from the outer buffer, [ProcessReceives]
    first validates: a message that fails validation is only logged, and
    the value store, the inner buffer and the sniffer stay as they were.
    A message that passes, whatever its side-map holds, has its values
    put into the value store, is then enqueued on the inner buffer and
    then recorded in the sniffer, in this order (when the select of the
    enqueue takes the done case, only the put has happened). After a
    message carrying value [V] under hash [H] is processed, the store
    resolves [H] to [V], and a following [Broadcast] that refers to [H]
    goes on to build its message from [V]. *)
Theorem C6_ProcessReceives_order (validate : msg -> option error) (m : msg)
    (rest : list recvEvent) (w : world) :
  (forall err innerCtxDone,
     validate m = Some err ->
     let w0 := emit (EvWarn err) w in
     ProcessReceivesWith validate (Recv m innerCtxDone :: rest) w
       = ProcessReceivesWith validate rest w0 /\
     w_trace w0 = w_trace w ++ [EvWarn err] /\
     t_values w0 = t_values w /\
     t_recvBuffer w0 = t_recvBuffer w /\
     t_sniffer w0 = t_sniffer w) /\
  (validate m = None ->
     let w1 := snd (setValues m w) in
     let w3 := snd (sniffer_Add (ToConsensusMsg m) (snd (enqueue m w1))) in
     ProcessReceivesWith validate (Recv m true :: rest) w = (Ok tt, w1) /\
     w_trace w1 = w_trace w ++ [EvSetValues (msg_values m)] /\
     t_recvBuffer w1 = t_recvBuffer w /\
     t_sniffer w1 = t_sniffer w /\
     ProcessReceivesWith validate (Recv m false :: rest) w
       = ProcessReceivesWith validate rest w3 /\
     w_trace w3
       = w_trace w ++ [EvSetValues (msg_values m); EvEnqueue m;
                       EvSniff (ToConsensusMsg m)] /\
     t_recvBuffer w3 = t_recvBuffer w ++ [m] /\
     msgs (t_sniffer w3) = msgs (t_sniffer w) ++ [sniffed (w_now w) m] /\
     (forall (H : vec byte 32) (V : Any),
        msg_values m !! H = Some V -> t_values w3 !! H = Some V)) /\
  (let w' := snd (ProcessReceives [Recv m false] w) in
   t_recvBuffer w' = t_recvBuffer w ++ [m] /\
   msgs (t_sniffer w') = msgs (t_sniffer w) ++ [sniffed (w_now w) m] /\
   forall (H : vec byte 32) (V : Any),
     msg_values m !! H = Some V ->
     t_values w' !! H = Some V /\
     getValue H w' = (Ok V, w') /\
     (H <> zeroHash ->
        deref H w' = (Ok (Some V), w') /\
        forall hashProto k1Sign c typ duty peerIdx round pr justification
               pointerValues w1 built,
          usePointerValues c w' = (Ok pointerValues, w1) ->
          createMsg hashProto k1Sign typ duty peerIdx round H (Some V) pr
            zeroHash None justification (privkey c) pointerValues = Ok built ->
          Broadcast hashProto k1Sign c typ duty peerIdx round H pr zeroHash
            justification w'
          = sendPeers c (ToConsensusMsg built) (peers c) (snd (go built w1)))).
Proof.
  assert (forall (H : vec byte 32) (V : Any),
            msg_values m !! H = Some V ->
            t_values (snd (setValues m w)) !! H = Some V) as Hstore.
  { intros H V HV. by rewrite setValues_lookup, HV. }
  split; [|split].
  - intros err innerCtxDone Hval w0. simpl. by rewrite Hval.
  - intros Hval w1 w3.
    assert (ProcessReceivesWith validate (Recv m true :: rest) w = (Ok tt, w1))
      as Hdone by (simpl; by rewrite Hval).
    assert (ProcessReceivesWith validate (Recv m false :: rest) w
            = ProcessReceivesWith validate rest w3)
      as Hlive by (simpl; by rewrite Hval).
    split; [exact Hdone|]. split; [done|]. split; [done|]. split; [done|].
    split; [exact Hlive|]. split; [simpl; by rewrite <- !app_assoc|].
    split; [done|]. split; [done|]. exact Hstore.
  - intros w'. split; [done|]. split; [done|]. intros H V HV.
    assert (t_values w' !! H = Some V) as Hw' by exact (Hstore H V HV).
    split; [done|].
    assert (getValue H w' = (Ok V, w')) as Hget.
    { unfold getValue. by rewrite Hw'. }
    split; [done|]. intros Hnz.
    assert (deref H w' = (Ok (Some V), w')) as Hderef.
    { unfold deref. rewrite decide_False by done. unfoldM. by rewrite Hget. }
    split; [done|]. intros hashProto k1Sign c typ duty peerIdx round pr
      justification pointerValues w1 built Hptr Hbuilt.
    by apply (Broadcast_built hashProto k1Sign c typ duty peerIdx round H pr
                zeroHash justification w' (Some V) None pointerValues w1 built
                Hderef (deref_zeroHash w')).
Qed.

(** C2: [validateMsg] rejects nothing. It returns nil for a prepare of
    round 0 whose value hash is three bytes long and whose signature is
    empty, and [ProcessReceives] forwards that message to the inner
    buffer and records it. *)
Theorem C2_validateMsg_accepts_malformed :
  Signature (msg_msg malformedPrepare) = [] /\
  length (ValueHash (msg_msg malformedPrepare)) = 3 /\
  validateMsg malformedPrepare = None /\
  (forall m, validateMsg m = None) /\
  let w' := snd (ProcessReceives [Recv malformedPrepare false] freshWorld) in
  t_recvBuffer w' = [malformedPrepare] /\
  msgs (t_sniffer w') = [sniffed 1001 malformedPrepare].
Proof. repeat split. Qed.

(** ** The theorems at concrete inputs *)

Lemma hashB_nonzero : hashB <> zeroHash.
Proof. discriminate. Qed.

Lemma demoWorld_hashA : t_values demoWorld !! hashA = Some valA.
Proof. vm_compute. reflexivity. Qed.

Lemma demoWorld_hashB : t_values demoWorld !! hashB = None.
Proof. vm_compute. reflexivity. Qed.

Lemma deref_demoWorld_hashA : deref hashA demoWorld = (Ok (Some valA), demoWorld).
Proof.
  unfold deref. rewrite decide_False by apply hashA_nonzero.
  unfoldM. unfold getValue. by rewrite demoWorld_hashA.
Qed.

Lemma C1_Broadcast_unknown_value_witness :
  let r := Broadcast demoHash demoSign demoComponent 1 demoDuty 0 1 hashB 0
             zeroHash [] demoWorld in
  hashB <> zeroHash /\ t_values demoWorld !! hashB = None /\
  fst r = Err UnknownValue /\ snd r = demoWorld /\
  sends (snd r) = [] /\ t_recvBuffer (snd r) = [].
Proof.
  intros r. split; [apply hashB_nonzero|]. split; [apply demoWorld_hashB|].
  destruct (C1_Broadcast_unknown_value demoHash demoSign demoComponent 1
              demoDuty 0 1 hashB 0 zeroHash [] demoWorld
              (or_introl (conj hashB_nonzero demoWorld_hashB)))
    as (Hr & Hw & Hs & Hb & _).
  repeat split; assumption.
Defined.

Lemma C6_ProcessReceives_order_witness :
  msg_values unsignedPrepare !! hashA = Some valA /\
  requireSignature unsignedPrepare = Some (errors_New "invalid signature length") /\
  t_recvBuffer
    (snd (ProcessReceivesWith requireSignature [Recv unsignedPrepare false]
            freshWorld)) = [] /\
  t_values freshWorld !! hashA = None /\
  (let w' := snd (ProcessReceives [Recv unsignedPrepare false] freshWorld) in
   t_recvBuffer w' = [unsignedPrepare] /\
   getValue hashA w' = (Ok valA, w')) /\
  msg_values malformedPrepare = ∅ /\
  (let w' := snd (ProcessReceives [Recv malformedPrepare false] freshWorld) in
   t_recvBuffer w' = [malformedPrepare] /\
   msgs (t_sniffer w') = [sniffed 1001 malformedPrepare]).
Proof.
  assert (msg_values unsignedPrepare !! hashA = Some valA) as HV.
  { vm_compute. reflexivity. }
  split; [exact HV|]. split; [reflexivity|].
  destruct (C6_ProcessReceives_order requireSignature unsignedPrepare []
              freshWorld) as (Hdrop & _ & _).
  destruct (Hdrop _ false eq_refl) as (Hrun & _ & _ & Hbuf & _).
  split; [rewrite Hrun; exact Hbuf|]. split; [reflexivity|].
  destruct (C6_ProcessReceives_order validateMsg unsignedPrepare []
              freshWorld) as (_ & _ & Hb & _ & Hres).
  destruct (Hres hashA valA HV) as (_ & Hget & _).
  split; [split; [exact Hb|exact Hget]|]. split; [reflexivity|].
  destruct (C6_ProcessReceives_order validateMsg malformedPrepare []
              freshWorld) as (_ & _ & Hb' & Hs' & _).
  split; [exact Hb'|exact Hs'].
Defined.

Lemma usePointerValues_demoWorld :
  usePointerValues demoComponent demoWorld
  = (Ok true, set_rand (fun _ => []) demoWorld).
Proof. reflexivity. Qed.



Lemma C8_fan_out_witness :
  exists m,
    createMsg demoHash demoSign 1 demoDuty 0 1 hashA (Some valA) 0 zeroHash
      None [] 7 true = Ok m /\
    length (filter (fun p => ID p = "peer0") demoPeers) = 1 /\
    (let r := Broadcast demoHash demoSign demoComponent 1 demoDuty 0 1 hashA
                0 zeroHash [] demoWorld in
     fst r = Ok tt /\
     sends (snd r)
       = [("peer1", ToConsensusMsg m); ("peer2", ToConsensusMsg m);
          ("peer3", ToConsensusMsg m)]) /\
    (let r := Broadcast demoHash demoSign faultyComponent 1 demoDuty 0 1 hashA
                0 zeroHash [] demoWorld in
     fst r = Err (errors_New "send failed") /\
     sends (snd r)
       = [("peer1", ToConsensusMsg m); ("peer2", ToConsensusMsg m)]).
Proof.
  eexists. split; [reflexivity|]. split; [reflexivity|]. split.
  - destruct (C8_fan_out demoHash demoSign demoComponent 1 demoDuty 0 1 hashA
                0 zeroHash [] demoWorld (Some valA) None true _ _ eq_refl
                deref_demoWorld_hashA (deref_zeroHash _)
                usePointerValues_demoWorld eq_refl)
      as (_ & _ & Hok & _).
    destruct Hok as (Hr & Hs & _).
    { change (remotePeers demoComponent) with ["peer1"; "peer2"; "peer3"].
      repeat constructor. }
    split; [exact Hr|exact Hs].
  - destruct (C8_fan_out demoHash demoSign faultyComponent 1 demoDuty 0 1 hashA
                0 zeroHash [] demoWorld (Some valA) None true _ _ eq_refl
                deref_demoWorld_hashA (deref_zeroHash _)
                usePointerValues_demoWorld eq_refl)
      as (_ & _ & _ & Hfail).
    destruct (Hfail ["peer1"] "peer2" ["peer3"] (errors_New "send failed")
                eq_refl ltac:(repeat constructor) eq_refl) as (Hr & Hs).
    split; [exact Hr|exact Hs].
Defined.

Lemma C9_usePointerValues_witness :
  legacyProbability pointerOnlyComponent = 0%float /\
  fst (usePointerValues pointerOnlyComponent demoWorld) = Ok true /\
  legacyProbability demoComponent = 0.5%float /\
  hd x00 (w_rand demoWorld) = xc8 /\
  fst (usePointerValues demoComponent demoWorld) = Ok true /\
  hd x00 (w_rand freshWorld) = x10 /\
  fst (usePointerValues demoComponent freshWorld) = Ok false /\
  legacyProbability legacyOnlyComponent = 1%float /\
  fst (usePointerValues legacyOnlyComponent demoWorld) = Ok false.
Proof.
  split; [reflexivity|].
  destruct (C9_usePointerValues demoHash demoSign pointerOnlyComponent
              demoWorld) as (_ & _ & _ & _ & _ & _ & _ & Hzero & _).
  split; [exact (Hzero eq_refl)|]. split; [reflexivity|].
  split; [reflexivity|].
  destruct (C9_usePointerValues demoHash demoSign demoComponent demoWorld)
    as (_ & _ & _ & _ & Hhalf & _).
  split; [exact (Hhalf eq_refl)|]. split; [reflexivity|].
  destruct (C9_usePointerValues demoHash demoSign demoComponent freshWorld)
    as (_ & _ & _ & _ & Hhalf' & _).
  split; [exact (Hhalf' eq_refl)|]. split; [reflexivity|].
  destruct (C9_usePointerValues demoHash demoSign legacyOnlyComponent
              demoWorld) as (_ & _ & _ & _ & _ & _ & Hone & _).
  exact (Hone eq_refl).
Defined.

(** ** Further properties of the value store and the receive loop *)

Lemma setValues_union (m : msg) (w : world) :
  t_values (snd (setValues m w)) = msg_values m ∪ t_values w.
Proof.
  apply map_eq. intros k. rewrite setValues_lookup, lookup_union.
  by destruct (msg_values m !! k), (t_values w !! k).
Qed.

(** X1: [setValues] merges the side-map of the message into the value
    store: the entries of the message win, every other entry is kept, no
    key is ever removed, and caching the same message again changes
    nothing. The inner buffer and the sniffer are not touched. *)
Theorem X1_setValues_merges (m : msg) (w : world) :
  let w' := snd (setValues m w) in
  t_values w' = msg_values m ∪ t_values w /\
  (forall k v, msg_values m !! k = Some v -> t_values w' !! k = Some v) /\
  (forall k, msg_values m !! k = None -> t_values w' !! k = t_values w !! k) /\
  dom (t_values w) ⊆ dom (t_values w') /\
  t_values (snd (setValues m w')) = t_values w' /\
  t_recvBuffer w' = t_recvBuffer w /\
  t_sniffer w' = t_sniffer w.
Proof.
  intros w'. subst w'. split; [apply setValues_union|].
  split; [|split; [|split; [|split]]].
  - intros k v Hk. by rewrite setValues_lookup, Hk.
  - intros k Hk. by rewrite setValues_lookup, Hk.
  - rewrite setValues_union, dom_union. set_solver.
  - rewrite !setValues_union. by rewrite (assoc_L (∪)), (idemp_L (∪)).
  - done.
Qed.

(** One turn of the loop of [ProcessReceives]. *)
Lemma ProcessReceivesWith_cons validate m innerCtxDone rest w :
  ProcessReceivesWith validate (Recv m innerCtxDone :: rest) w
  = match validate m with
    | Some err => ProcessReceivesWith validate rest (emit (EvWarn err) w)
    | None =>
        if innerCtxDone then (Ok tt, snd (setValues m w))
        else ProcessReceivesWith validate rest
               (snd (sniffer_Add (ToConsensusMsg m)
                       (snd (enqueue m (snd (setValues m w))))))
    end.
Proof. simpl. destruct (validate m), innerCtxDone; reflexivity. Qed.

(** X2: the value store never evicts while [ProcessReceives] runs: under
    any schedule and any validation, a hash that resolved before still
    resolves afterwards, and it resolves to the same value when no
    received message carries that hash. *)
Theorem X2_ProcessReceives_never_evicts (validate : msg -> option error)
    (outerBuffer : list recvEvent) (w : world) (k : vec byte 32) (v : Any) :
  t_values w !! k = Some v ->
  let w' := snd (ProcessReceivesWith validate outerBuffer w) in
  is_Some (t_values w' !! k) /\
  (Forall (fun m => msg_values m !! k = None) (received outerBuffer) ->
   t_values w' !! k = Some v).
Proof.
  revert w v. induction outerBuffer as [|[|m d] rest IH]; intros w v Hk.
  - simpl. eauto.
  - simpl. eauto.
  - cbv zeta. rewrite ProcessReceivesWith_cons.
    assert (forall w1 : world, t_values w1 = t_values (snd (setValues m w)) ->
              exists v1, t_values w1 !! k = Some v1 /\
                         (msg_values m !! k = None -> v1 = v)) as Hset.
    { intros w1 ->. rewrite setValues_lookup.
      destruct (msg_values m !! k) as [x|]; [by exists x|]. by exists v. }
    change (received (Recv m d :: rest)) with (m :: received rest).
    destruct (validate m) as [err|].
    + destruct (IH (emit (EvWarn err) w) v Hk) as [Hs Hv].
      split; [done|]. intros Hall. apply Forall_cons in Hall as [_ Hall]. auto.
    + destruct d.
      * destruct (Hset _ eq_refl) as (v1 & Hv1 & Heq). cbn [snd].
        split; [by rewrite Hv1|]. intros Hall.
        apply Forall_cons in Hall as [Hm _]. by rewrite Hv1, (Heq Hm).
      * destruct (Hset (snd (sniffer_Add (ToConsensusMsg m)
                          (snd (enqueue m (snd (setValues m w)))))) eq_refl)
          as (v1 & Hv1 & Heq).
        destruct (IH _ v1 Hv1) as [Hs Hv]. split; [done|].
        intros Hall. apply Forall_cons in Hall as [Hm Hall].
        rewrite <- (Heq Hm). auto.
Qed.

Lemma stamped_Msg (now : Z) (ticks : nat -> Z) (ms : list msg) :
  sniffed_Msg <$> stamped now ticks ms = ToConsensusMsg <$> ms.
Proof.
  revert now ticks. induction ms as [|m ms IH]; intros now ticks; [done|].
  simpl. by rewrite IH.
Qed.

Lemma stamped_lookup (now : Z) (ticks : nat -> Z) (ms : list msg) (i : nat) :
  stamped now ticks ms !! i
  = sniffed (match i with O => now | S k => ticks k end) <$> ms !! i.
Proof.
  revert now ticks i. induction ms as [|m ms IH]; intros now ticks i.
  - by destruct i.
  - destruct i as [|i]; [done|]. simpl. rewrite IH. by destruct i.
Qed.

(** X3: after any schedule and with any validation, [ProcessReceives]
    has sent nothing and started no goroutine; what it has added to the
    inner buffer is a subsequence of the received messages, in their
    order, all of which passed validation; and it has recorded in the
    sniffer exactly the messages it enqueued, in the same order, each
    with the reading of the wall clock at its addition, leaving the
    header of the sniffer as it was. *)
Theorem X3_ProcessReceives_delivers (validate : msg -> option error)
    (outerBuffer : list recvEvent) (w : world) :
  let w' := snd (ProcessReceivesWith validate outerBuffer w) in
  exists ms : list msg,
    t_recvBuffer w' = t_recvBuffer w ++ ms /\
    msgs (t_sniffer w')
      = msgs (t_sniffer w) ++ stamped (w_now w) (w_ticks w) ms /\
    sniffed_Msg <$> msgs (t_sniffer w')
      = (sniffed_Msg <$> msgs (t_sniffer w)) ++ (ToConsensusMsg <$> ms) /\
    ms `sublist_of` received outerBuffer /\
    Forall (fun m => validate m = None) ms /\
    nodes (t_sniffer w') = nodes (t_sniffer w) /\
    peerIdx (t_sniffer w') = peerIdx (t_sniffer w) /\
    startedAt (t_sniffer w') = startedAt (t_sniffer w) /\
    sends w' = sends w /\
    w_goroutines w' = w_goroutines w.
Proof.
  cbv zeta.
  assert (exists ms : list msg,
    t_recvBuffer (snd (ProcessReceivesWith validate outerBuffer w))
      = t_recvBuffer w ++ ms /\
    msgs (t_sniffer (snd (ProcessReceivesWith validate outerBuffer w)))
      = msgs (t_sniffer w) ++ stamped (w_now w) (w_ticks w) ms /\
    ms `sublist_of` received outerBuffer /\
    Forall (fun m => validate m = None) ms /\
    nodes (t_sniffer (snd (ProcessReceivesWith validate outerBuffer w)))
      = nodes (t_sniffer w) /\
    peerIdx (t_sniffer (snd (ProcessReceivesWith validate outerBuffer w)))
      = peerIdx (t_sniffer w) /\
    startedAt (t_sniffer (snd (ProcessReceivesWith validate outerBuffer w)))
      = startedAt (t_sniffer w) /\
    sends (snd (ProcessReceivesWith validate outerBuffer w)) = sends w /\
    w_goroutines (snd (ProcessReceivesWith validate outerBuffer w))
      = w_goroutines w) as (ms & Hb & Hs & Hrest).
  { revert w. induction outerBuffer as [|[|m d] rest IH]; intros w.
    - exists []. simpl. rewrite !app_nil_r.
      repeat split; try done; apply sublist_nil_l.
    - exists []. simpl. rewrite !app_nil_r.
      repeat split; try done; apply sublist_nil_l.
    - rewrite ProcessReceivesWith_cons.
      change (received (Recv m d :: rest)) with (m :: received rest).
      destruct (validate m) as [err|] eqn:Hval.
      + destruct (IH (emit (EvWarn err) w))
          as (ms & Hb & Hs & Hsub & Hall & Hn & Hp & Hst & Hse & Hg).
        exists ms. repeat split; try done.
        * by apply sublist_cons.
        * rewrite Hse. unfold sends. simpl. rewrite omap_app. simpl.
          by rewrite app_nil_r.
      + destruct d.
        * exists []. cbn [fst snd]. simpl. rewrite !app_nil_r.
          repeat split; try done; try constructor.
          -- apply sublist_nil_l.
          -- unfold sends. simpl. rewrite omap_app. simpl.
             by rewrite app_nil_r.
        * destruct (IH (snd (sniffer_Add (ToConsensusMsg m)
                          (snd (enqueue m (snd (setValues m w)))))))
            as (ms & Hb & Hs & Hsub & Hall & Hn & Hp & Hst & Hse & Hg).
          exists (m :: ms). repeat split; try done.
          -- rewrite Hb. simpl. by rewrite <- app_assoc.
          -- rewrite Hs. simpl. by rewrite <- app_assoc.
          -- by apply sublist_skip.
          -- by constructor.
          -- rewrite Hse. unfold sends. simpl. rewrite !omap_app. simpl.
             by rewrite !app_nil_r. }
  exists ms. split; [exact Hb|]. split; [exact Hs|].
  split; [|exact Hrest]. by rewrite Hs, fmap_app, stamped_Msg.
Qed.

(** X4: as long as every [select] of the loop takes its message case, no
    inbound message is lost or reordered: [ProcessReceives] appends the messages of the outer buffer
    to the inner buffer in their order and records them in the sniffer in
    the same order, the i-th of them with the i-th reading of the wall
    clock from the start of the run, and leaves in the value store the
    side-maps of all of them merged over the old store, later messages
    winning. *)
Theorem X4_ProcessReceives_fifo (ms : list msg) (w : world) :
  let w' := snd (ProcessReceives ((fun m => Recv m false) <$> ms) w) in
  t_recvBuffer w' = t_recvBuffer w ++ ms /\
  msgs (t_sniffer w')
    = msgs (t_sniffer w) ++ stamped (w_now w) (w_ticks w) ms /\
  sniffed_Msg <$> msgs (t_sniffer w')
    = (sniffed_Msg <$> msgs (t_sniffer w)) ++ (ToConsensusMsg <$> ms) /\
  (forall i m,
     ms !! i = Some m ->
     msgs (t_sniffer w') !! (length (msgs (t_sniffer w)) + i)
     = Some (sniffed (match i with O => w_now w | S k => w_ticks w k end) m)) /\
  t_values w'
    = foldl (fun store m => msg_values m ∪ store) (t_values w) ms.
Proof.
  cbv zeta. unfold ProcessReceives.
  assert (t_recvBuffer
            (snd (ProcessReceivesWith validateMsg
                    ((fun m => Recv m false) <$> ms) w))
            = t_recvBuffer w ++ ms /\
          msgs (t_sniffer
                  (snd (ProcessReceivesWith validateMsg
                          ((fun m => Recv m false) <$> ms) w)))
            = msgs (t_sniffer w) ++ stamped (w_now w) (w_ticks w) ms /\
          t_values
            (snd (ProcessReceivesWith validateMsg
                    ((fun m => Recv m false) <$> ms) w))
            = foldl (fun store m => msg_values m ∪ store) (t_values w) ms)
    as (Hb & Hs & Hv).
  { revert w. induction ms as [|m ms IH]; intros w.
    - simpl. by rewrite !app_nil_r.
    - rewrite fmap_cons, ProcessReceivesWith_cons. cbn [validateMsg].
      destruct (IH (snd (sniffer_Add (ToConsensusMsg m)
                       (snd (enqueue m (snd (setValues m w)))))))
        as (Hb & Hs & Hv).
      rewrite Hb, Hs, Hv. cbn [foldl]. rewrite <- (setValues_union m w).
      simpl. by rewrite <- !app_assoc. }
  split; [exact Hb|]. split; [exact Hs|].
  split; [by rewrite Hs, fmap_app, stamped_Msg|]. split; [|exact Hv].
  intros i m Hi. rewrite Hs, lookup_app_r by lia.
  replace (length (msgs (t_sniffer w)) + i - length (msgs (t_sniffer w)))
    with i by lia.
  by rewrite stamped_lookup, Hi.
Qed.

Section CodecErrors.
Context (hashProto : QBFTMsg -> vec byte 32).
Context (k1Sign : Z -> vec byte 32 -> result (list byte)).

Lemma justProtos_foreign (js : list qbftMsg) (acc : list QBFTMsg) :
  ~ Forall isImpl js -> justProtos js acc = Err InvalidJustification.
Proof.
  revert acc. induction js as [|[impl|tag] js IH]; intros acc Hn; simpl.
  - destruct Hn. constructor.
  - apply IH. intros Hall. apply Hn. constructor; [by exists impl|done].
  - done.
Qed.

Lemma Forall_isImpl (js : list qbftMsg) :
  Forall isImpl js <-> exists impls, js = ImplMsg <$> impls.
Proof.
  split.
  - induction 1 as [|j js [impl ->] _ [impls ->]]; [by exists []|].
    by exists (impl :: impls).
  - intros [impls ->]. apply Forall_fmap, Forall_true. intros impl.
    by exists impl.
Qed.

(** X7: [createMsg] signs first and converts the justifications second:
    a signing error is returned as it is, whatever the justifications;
    when signing succeeds and some justification is not a [msg], the
    error is "invalid justification"; and a message is returned exactly
    when signing succeeds and every justification is a [msg]. *)
Theorem X7_createMsg_errors typ duty peerIdx round (vHash : vec byte 32)
    value pr (pvHash : vec byte 32) pv justification privkey
    (pointerValues : bool) :
  let pbMsg :=
    envelope typ duty peerIdx round
      (if pointerValues then vHash else zeroHash) value pr
      (if pointerValues then pvHash else zeroHash) pv in
  let r := createMsg hashProto k1Sign typ duty peerIdx round vHash value pr
             pvHash pv justification privkey pointerValues in
  (forall e, k1Sign privkey (hashProto pbMsg) = Err e -> r = Err e) /\
  (forall sig, k1Sign privkey (hashProto pbMsg) = Ok sig ->
     ~ Forall isImpl justification -> r = Err InvalidJustification) /\
  ((exists m, r = Ok m) <->
   (exists sig, k1Sign privkey (hashProto pbMsg) = Ok sig) /\
   Forall isImpl justification).
Proof.
  cbv zeta.
  assert (forall e,
            k1Sign privkey
              (hashProto (envelope typ duty peerIdx round
                 (if pointerValues then vHash else zeroHash) value pr
                 (if pointerValues then pvHash else zeroHash) pv)) = Err e ->
            createMsg hashProto k1Sign typ duty peerIdx round vHash value pr
              pvHash pv justification privkey pointerValues = Err e) as Hsign.
  { intros e He. unfold createMsg, signMsg. cbn zeta.
    change (set_Signature [] (envelope ?a ?b ?c ?d ?e ?f ?g ?h ?i))
      with (envelope a b c d e f g h i).
    unfold mbind, result_bind. by rewrite He. }
  assert (forall sig,
            k1Sign privkey
              (hashProto (envelope typ duty peerIdx round
                 (if pointerValues then vHash else zeroHash) value pr
                 (if pointerValues then pvHash else zeroHash) pv)) = Ok sig ->
            ~ Forall isImpl justification ->
            createMsg hashProto k1Sign typ duty peerIdx round vHash value pr
              pvHash pv justification privkey pointerValues
            = Err InvalidJustification) as Hjust.
  { intros sig Hs Hn. unfold createMsg, signMsg. cbn zeta.
    change (set_Signature [] (envelope ?a ?b ?c ?d ?e ?f ?g ?h ?i))
      with (envelope a b c d e f g h i).
    unfold mbind, result_bind. rewrite Hs.
    by rewrite (justProtos_foreign _ _ Hn). }
  split; [exact Hsign|]. split; [exact Hjust|]. split.
  - intros [m Hm]. apply createMsg_inv in Hm as (sig & impls & Hs & -> & _).
    split; [by exists sig|]. apply Forall_isImpl. by exists impls.
  - intros [[sig Hs] Hall]. apply Forall_isImpl in Hall as [impls ->].
    by apply (createMsg_total hashProto k1Sign _ _ _ _ _ _ _ _ _ _ _ _ sig).
Qed.
End CodecErrors.

Lemma X2_ProcessReceives_never_evicts_witness :
  t_values demoWorld !! hashA = Some valA /\
  Forall (fun m => msg_values m !! hashA = None)
    (received [Recv prePrepareB false]) /\
  t_values (snd (ProcessReceives [Recv prePrepareB false] demoWorld)) !! hashA
  = Some valA.
Proof.
  assert (Forall (fun m => msg_values m !! hashA = None)
            (received [Recv prePrepareB false])) as Hall.
  { repeat constructor. }
  split; [apply demoWorld_hashA|]. split; [exact Hall|].
  destruct (X2_ProcessReceives_never_evicts validateMsg
              [Recv prePrepareB false] demoWorld hashA valA demoWorld_hashA)
    as [_ Hkeep].
  exact (Hkeep Hall).
Defined.

(** ** Further properties of the broadcast path *)

Lemma deref_cases (h : vec byte 32) (w : world) :
  (h = zeroHash /\ deref h w = (Ok None, w)) \/
  (h <> zeroHash /\ exists v, t_values w !! h = Some v /\
                              deref h w = (Ok (Some v), w)) \/
  (h <> zeroHash /\ t_values w !! h = None /\
   deref h w = (Err UnknownValue, w)).
Proof.
  unfold deref. destruct (decide (h = zeroHash)) as [->|Hne]; [by left|].
  right. unfoldM. unfold getValue.
  destruct (t_values w !! h) as [v|]; [left|right]; eauto.
Qed.

Lemma deref_inv (h : vec byte 32) (w w' : world) (o : option Any) :
  deref h w = (Ok o, w') ->
  w' = w /\
  ((h = zeroHash /\ o = None) \/
   (h <> zeroHash /\ exists v, o = Some v /\ t_values w !! h = Some v)).
Proof.
  destruct (deref_cases h w) as [[Hz ->]|[(Hnz & v & Hv & ->)|(_ & _ & ->)]];
    intros [= <- <-]; split; try done; [left|right]; eauto.
Qed.

(** Drawing the random byte touches nothing but the random source. *)
Lemma usePointerValues_frame c w :
  exists b w1,
    usePointerValues c w = (Ok b, w1) /\
    t_values w1 = t_values w /\ t_recvBuffer w1 = t_recvBuffer w /\
    t_sniffer w1 = t_sniffer w /\ w_now w1 = w_now w /\
    w_goroutines w1 = w_goroutines w /\ w_trace w1 = w_trace w /\
    w_rand w1 = tail (w_rand w).
Proof.
  unfold usePointerValues, randRead. unfoldM.
  destruct (w_rand w) eqn:E; eexists _, _; (split; [reflexivity|]);
    simpl; by rewrite ?E.
Qed.

(** The fan-out tries a prefix of the remote peers, in order. *)
Lemma sendPeers_prefix c m ps w :
  exists ds,
    ds `prefix_of` remoteIDs (tcpNodeID c) ps /\
    snd (sendPeers c m ps w) = sent m ds w.
Proof.
  revert w. induction ps as [|p ps IH]; intros w.
  - by exists [].
  - simpl. destruct (decide (ID p = tcpNodeID c)) as [Heq|Hne].
    + rewrite remoteIDs_cons_self by done. apply IH.
    + rewrite remoteIDs_cons_other by done.
      unfoldM. unfold SendAsync. destruct (sender c (ID p) m) as [e|].
      * exists [ID p]. split; [|done]. apply prefix_cons, prefix_nil.
      * destruct (IH (emit (EvSend (ID p) m) w)) as (ds & Hpre & Hds).
        exists (ID p :: ds). split; [by apply prefix_cons|].
        by rewrite sent_cons.
Qed.

Section BroadcastFacts.
Context (hashProto : QBFTMsg -> vec byte 32).
Context (k1Sign : Z -> vec byte 32 -> result (list byte)).

(** X8: when the hashes resolve but the message cannot be built (signing
    fails or a justification is not a [msg]), [Broadcast] returns the
    error of [createMsg]; it has drawn its random byte, but it has sent
    nothing, started no loopback goroutine and left the value store, the
    inner buffer and the sniffer as they were. *)
Theorem X8_Broadcast_build_failure c typ duty peerIdx round valueHash pr
    pvHash justification w value pv pointerValues w1 e :
  deref valueHash w = (Ok value, w) ->
  deref pvHash w = (Ok pv, w) ->
  usePointerValues c w = (Ok pointerValues, w1) ->
  createMsg hashProto k1Sign typ duty peerIdx round valueHash value pr pvHash
    pv justification (privkey c) pointerValues = Err e ->
  let r := Broadcast hashProto k1Sign c typ duty peerIdx round valueHash pr
             pvHash justification w in
  r = (Err e, w1) /\
  sends (snd r) = sends w /\
  w_goroutines (snd r) = w_goroutines w /\
  t_values (snd r) = t_values w /\
  t_recvBuffer (snd r) = t_recvBuffer w /\
  t_sniffer (snd r) = t_sniffer w /\
  w_rand (snd r) = tail (w_rand w).
Proof.
  intros Hv Hpv Hptr Hm r.
  assert (r = (Err e, w1)) as ->.
  { subst r. unfold Broadcast.
    unfold mbind at 1, M_bind at 1. rewrite Hv.
    unfold mbind at 1, M_bind at 1. rewrite Hpv.
    unfold mbind at 1, M_bind at 1. rewrite Hptr.
    unfold mbind at 1, M_bind at 1. unfold liftR. by rewrite Hm. }
  destruct (usePointerValues_frame c w)
    as (b & w1' & Hu & Hval & Hbuf & Hsn & _ & Hgo & Htr & Hrand).
  rewrite Hptr in Hu. injection Hu as <- <-.
  cbn [snd]. unfold sends. by rewrite Htr.
Qed.

(** The two ways [Broadcast] ends: with an error before anything is
    sent or started, or in the fan-out of the message it built. *)
Lemma Broadcast_elim (P : result unit * world -> Prop) c typ duty peerIdx
    round valueHash pr pvHash justification w :
  (forall e w0, sameButRand w w0 -> P (Err e, w0)) ->
  (forall m w1, sameButRand w w1 ->
     P (sendPeers c (ToConsensusMsg m) (peers c) (snd (go m w1)))) ->
  P (Broadcast hashProto k1Sign c typ duty peerIdx round valueHash pr pvHash
       justification w).
Proof.
  intros Herr Hbuilt.
  assert (sameButRand w w) as Hrefl by (repeat split; auto).
  unfold Broadcast.
  destruct (deref_cases valueHash w)
    as [[_ Hv]|[(_ & v & _ & Hv)|(_ & _ & Hv)]];
    unfold mbind at 1, M_bind at 1; rewrite Hv; [| |by apply Herr].
  all: destruct (deref_cases pvHash w)
         as [[_ Hpv]|[(_ & p & _ & Hpv)|(_ & _ & Hpv)]];
       unfold mbind at 1, M_bind at 1; rewrite Hpv; [| |by apply Herr].
  all: destruct (usePointerValues_frame c w)
         as (b & w1 & Hu & Hval & Hbuf & Hsn & Hnow & Hgo & Htr & Hrand);
       unfold mbind at 1, M_bind at 1; rewrite Hu;
       unfold mbind at 1, M_bind at 1; unfold liftR;
       assert (sameButRand w w1) as Hsame by (repeat split; auto).
  all: match goal with
       | |- context [createMsg ?a ?b ?c ?d ?e ?f ?g ?h ?i ?j ?k ?l ?m ?n] =>
           destruct (createMsg a b c d e f g h i j k l m n) as [built|err]
       end; [by apply Hbuilt|by apply Herr].
Qed.

(** X9: in every outcome [Broadcast] leaves the value store, the inner
    buffer, the sniffer and the clock as they were, starts at most one
    loopback goroutine, draws at most one random byte, and invokes
    [SendAsync] only for a prefix of the remote peers, in their order,
    each at most once per entry of the operator set, never for the local
    identity, and always with one and the same message. *)
Theorem X9_Broadcast_frame c typ duty peerIdx round valueHash pr pvHash
    justification w :
  let w' := snd (Broadcast hashProto k1Sign c typ duty peerIdx round
                   valueHash pr pvHash justification w) in
  t_values w' = t_values w /\
  t_recvBuffer w' = t_recvBuffer w /\
  t_sniffer w' = t_sniffer w /\
  w_now w' = w_now w /\
  (w_goroutines w' = w_goroutines w \/
   exists m, w_goroutines w' = w_goroutines w ++ [m]) /\
  (w_rand w' = w_rand w \/ w_rand w' = tail (w_rand w)) /\
  exists ds,
    ds `prefix_of` remotePeers c /\
    (tcpNodeID c ∉ ds) /\
    fst <$> sends w' = (fst <$> sends w) ++ ds /\
    forall d1 m1 d2 m2,
      (d1, m1) ∈ drop (length (sends w)) (sends w') ->
      (d2, m2) ∈ drop (length (sends w)) (sends w') -> m1 = m2.
Proof.
  cbv zeta. apply Broadcast_elim.
  - intros e w0 (Hv & Hb & Hs & Hn & Hg & Ht & Hr).
    cbn [snd]. repeat split; auto.
    exists []. split; [apply prefix_nil|]. split; [apply not_elem_of_nil|].
    unfold sends. rewrite Ht, app_nil_r. split; [done|].
    intros d1 m1 d2 m2 Hin. rewrite drop_all in Hin. by apply elem_of_nil in Hin.
  - intros m w1 (Hv & Hb & Hs & Hn & Hg & Ht & Hr).
    destruct (sendPeers_prefix c (ToConsensusMsg m) (peers c) (snd (go m w1)))
      as (ds & Hpre & ->).
    destruct (sent_frame (ToConsensusMsg m) ds (snd (go m w1)))
      as (-> & -> & -> & -> & -> & -> & _).
    assert (sends (snd (go m w1)) = sends w) as Hsends.
    { unfold sends. simpl. rewrite omap_app, Ht. simpl. by rewrite app_nil_r. }
    rewrite sends_sent, Hsends. simpl. rewrite Hv, Hb, Hs, Hn, Hg.
    repeat split; auto; [by right; exists m|].
    exists ds. split; [exact Hpre|]. split.
    { intros Hin. apply (remoteIDs_not_self (tcpNodeID c) (peers c)).
      destruct Hpre as [post ->]. apply elem_of_app. by left. }
    split.
    { rewrite fmap_app. f_equal. rewrite <- list_fmap_compose.
      by rewrite list_fmap_id. }
    intros d1 m1 d2 m2. rewrite drop_app_length.
    intros (? & [= _ ->] & _)%list_elem_of_fmap
           (? & [= _ ->] & _)%list_elem_of_fmap. done.
Qed.

(** X12: [Broadcast] ships nothing that is not in its value store: every
    entry of the side-map of the message it builds is an entry of the
    store, and an inline value or prepared value of the message is the
    store's value for the hash the caller gave. *)
Theorem X12_Broadcast_values_from_store c typ duty peerIdx round
    (valueHash : vec byte 32) pr (pvHash : vec byte 32) justification w value
    pv pointerValues w1 m :
  deref valueHash w = (Ok value, w) ->
  deref pvHash w = (Ok pv, w) ->
  usePointerValues c w = (Ok pointerValues, w1) ->
  createMsg hashProto k1Sign typ duty peerIdx round valueHash value pr pvHash
    pv justification (privkey c) pointerValues = Ok m ->
  msg_values m ⊆ t_values w /\
  (forall v, Value (msg_msg m) = Some v -> t_values w !! valueHash = Some v) /\
  (forall p, PreparedValue (msg_msg m) = Some p ->
             t_values w !! pvHash = Some p) /\
  (valueHash = zeroHash -> Value (msg_msg m) = None) /\
  (pvHash = zeroHash -> PreparedValue (msg_msg m) = None).
Proof.
  intros Hv Hpv _ Hm.
  apply deref_inv in Hv as [_ Hv]. apply deref_inv in Hpv as [_ Hpv].
  apply createMsg_inv in Hm as (sig & impls & _ & _ & ->).
  cbn [msg_msg msg_values set_Signature envelope Value PreparedValue].
  assert (forall v, value = Some v -> t_values w !! valueHash = Some v) as Hval.
  { intros v ->. destruct Hv as [[_ ?]|(_ & v' & [= <-] & ?)]; done. }
  assert (forall p, pv = Some p -> t_values w !! pvHash = Some p) as Hpval.
  { intros p ->. destruct Hpv as [[_ ?]|(_ & p' & [= <-] & ?)]; done. }
  split; [|split; [done|split; [done|split]]].
  - apply map_subseteq_spec. intros k x.
    destruct pointerValues; [|by rewrite lookup_empty].
    destruct pv as [p|], value as [v|]; simpl;
      rewrite ?lookup_insert, ?lookup_empty;
      repeat case_decide; subst; intros [= <-]; auto.
  - intros Hz. destruct Hv as [[_ ->]|[Hnz _]]; done.
  - intros Hz. destruct Hpv as [[_ ->]|[Hnz _]]; done.
Qed.

(** X13: a value travels with the message in pointer mode: when
    [Broadcast] builds a message in pointer mode for a non-zero value
    hash, a transport that receives that message resolves the hash
    afterwards to the value the sender's store holds for it, whatever its
    own store held before. *)
Theorem X13_pointer_message_teaches_receiver c typ duty peerIdx round
    (valueHash : vec byte 32) pr (pvHash : vec byte 32) justification w value
    pv w1 m (receiver : world) :
  valueHash <> zeroHash ->
  deref valueHash w = (Ok value, w) ->
  deref pvHash w = (Ok pv, w) ->
  usePointerValues c w = (Ok true, w1) ->
  createMsg hashProto k1Sign typ duty peerIdx round valueHash value pr pvHash
    pv justification (privkey c) true = Ok m ->
  let receiver' := snd (ProcessReceives [Recv m false] receiver) in
  is_Some (t_values w !! valueHash) /\
  t_values receiver' !! valueHash = t_values w !! valueHash /\
  exists v, getValue valueHash receiver' = (Ok v, receiver') /\
            Value (msg_msg m) = Some v.
Proof.
  intros Hnz Hv Hpv _ Hm receiver'.
  apply deref_inv in Hv as [_ [[Hz _]|(_ & v & -> & Hv)]]; [done|].
  apply deref_inv in Hpv as [_ Hpv].
  apply createMsg_inv in Hm as (sig & impls & _ & _ & Hm).
  assert (msg_values m !! valueHash = Some v) as Hside.
  { rewrite Hm. cbn [msg_values].
    destruct Hpv as [[_ ->]|(_ & p & -> & Hp)]; simpl.
    - by rewrite lookup_insert_eq.
    - destruct (decide (pvHash = valueHash)) as [->|Hne].
      + rewrite lookup_insert_eq. congruence.
      + rewrite lookup_insert_ne by done. by rewrite lookup_insert_eq. }
  assert (t_values receiver' !! valueHash = Some v) as Hr.
  { subst receiver'. unfold ProcessReceives.
    rewrite ProcessReceivesWith_cons. cbn [validateMsg].
    change (t_values (snd (setValues m receiver)) !! valueHash = Some v).
    by rewrite setValues_lookup, Hside. }
  rewrite Hv. split; [by exists v|]. split; [exact Hr|].
  exists v. split; [unfold getValue; by rewrite Hr|by rewrite Hm].
Qed.
End BroadcastFacts.

Lemma X8_Broadcast_build_failure_witness :
  let r := Broadcast demoHash demoSign demoComponent 1 demoDuty 0 1 hashA 0
             zeroHash [ForeignMsg 0] demoWorld in
  createMsg demoHash demoSign 1 demoDuty 0 1 hashA (Some valA) 0 zeroHash None
    [ForeignMsg 0] 7 true = Err InvalidJustification /\
  fst r = Err InvalidJustification /\
  sends (snd r) = [] /\ w_goroutines (snd r) = [] /\ w_rand (snd r) = [].
Proof.
  intros r. split; [reflexivity|].
  destruct (X8_Broadcast_build_failure demoHash demoSign demoComponent 1
              demoDuty 0 1 hashA 0 zeroHash [ForeignMsg 0] demoWorld
              (Some valA) None true _ InvalidJustification
              deref_demoWorld_hashA (deref_zeroHash _)
              usePointerValues_demoWorld eq_refl)
    as (Hr & Hs & Hg & _ & _ & _ & Hrand).
  fold r in Hr, Hs, Hg, Hrand. rewrite Hr. repeat split; assumption.
Defined.

Lemma X12_Broadcast_values_from_store_witness :
  exists m,
    createMsg demoHash demoSign 1 demoDuty 0 1 hashA (Some valA) 0 zeroHash
      None [] 7 true = Ok m /\
    msg_values m ⊆ t_values demoWorld /\
    PreparedValue (msg_msg m) = None.
Proof.
  eexists. split; [reflexivity|].
  destruct (X12_Broadcast_values_from_store demoHash demoSign demoComponent 1
              demoDuty 0 1 hashA 0 zeroHash [] demoWorld (Some valA) None true
              _ _ deref_demoWorld_hashA (deref_zeroHash _)
              usePointerValues_demoWorld eq_refl)
    as (Hsub & _ & _ & _ & Hpv).
  split; [exact Hsub|exact (Hpv eq_refl)].
Defined.

Lemma X13_pointer_message_teaches_receiver_witness :
  exists m,
    createMsg demoHash demoSign 1 demoDuty 0 1 hashA (Some valA) 0 zeroHash
      None [] 7 true = Ok m /\
    t_values freshWorld !! hashA = None /\
    t_values (snd (ProcessReceives [Recv m false] freshWorld)) !! hashA
    = t_values demoWorld !! hashA.
Proof.
  eexists. split; [reflexivity|]. split; [reflexivity|].
  destruct (X13_pointer_message_teaches_receiver demoHash demoSign
              demoComponent 1 demoDuty 0 1 hashA 0 zeroHash [] demoWorld
              (Some valA) None _ _ freshWorld hashA_nonzero
              deref_demoWorld_hashA (deref_zeroHash _)
              usePointerValues_demoWorld eq_refl)
    as (_ & Hr & _).
  exact Hr.
Defined.

(** ** Further properties of the mode draw *)

Lemma usePointerValues_result c w :
  fst (usePointerValues c w)
  = Ok (PrimFloat.leb (legacyProbability c) (fraction (hd x00 (w_rand w)))).
Proof.
  unfold usePointerValues, randRead. unfoldM. by destruct (w_rand w).
Qed.

(** X10: with a legacy probability of exactly 1 the legacy encoding is
    not exclusive: [usePointerValues] answers pointer mode when the byte
    drawn is 255, and legacy mode for every other byte, also for the zero
    byte it is left with when the random source delivers nothing. *)
Theorem X10_legacy_probability_one c w :
  legacyProbability c = 1%float ->
  fst (usePointerValues c w) = Ok (bool_decide (hd x00 (w_rand w) = xff)).
Proof.
  intros Hp. rewrite usePointerValues_result, Hp. f_equal.
  destruct (hd x00 (w_rand w)); vm_compute; reflexivity.
Qed.

Lemma X10_legacy_probability_one_witness :
  legacyProbability legacyOnlyComponent = 1%float /\
  fst (usePointerValues legacyOnlyComponent demoWorld) = Ok false /\
  fst (usePointerValues legacyOnlyComponent
         (set_rand (fun _ => [xff]) demoWorld)) = Ok true /\
  fst (usePointerValues legacyOnlyComponent
         (set_rand (fun _ => []) demoWorld)) = Ok false.
Proof.
  split; [reflexivity|].
  split; [exact (X10_legacy_probability_one legacyOnlyComponent demoWorld eq_refl)|].
  split.
  - exact (X10_legacy_probability_one legacyOnlyComponent
             (set_rand (fun _ => [xff]) demoWorld) eq_refl).
  - exact (X10_legacy_probability_one legacyOnlyComponent
             (set_rand (fun _ => []) demoWorld) eq_refl).
Defined.

Lemma SFleb_trans (x y z : SpecFloat.spec_float) :
  SpecFloat.SFleb x y = true -> SpecFloat.SFleb y z = true ->
  SpecFloat.SFleb x z = true.
Proof.
  unfold SpecFloat.SFleb, SpecFloat.SFcompare.
  destruct x as [sx|sx| |sx mx ex], y as [sy|sy| |sy my ey],
           z as [sz|sz| |sz mz ez];
    try destruct sx; try destruct sy; try destruct sz;
    try (intros; congruence); try reflexivity.
  all: destruct (Z.compare_spec ex ey), (Z.compare_spec ey ez),
         (Z.compare_spec ex ez); try lia; subst;
       try (intros; congruence); try reflexivity.
  all: fold (Pos.compare mx my); fold (Pos.compare my mz);
       fold (Pos.compare mx mz).
  all: destruct (Pos.compare_spec mx my), (Pos.compare_spec my mz),
         (Pos.compare_spec mx mz); simpl; try lia; subst;
       try (intros; congruence); try reflexivity.
Qed.

Lemma float_leb_trans (x y z : float) :
  PrimFloat.leb x y = true -> PrimFloat.leb y z = true ->
  PrimFloat.leb x z = true.
Proof. rewrite !FloatAxioms.leb_spec. apply SFleb_trans. Qed.

Lemma allBytes_complete (b : byte) : In b allBytes.
Proof.
  apply (nth_error_In allBytes (N.to_nat (Byte.to_N b))).
  destruct b; vm_compute; reflexivity.
Qed.

Lemma fraction_mono (b b' : byte) :
  (Byte.to_N b <= Byte.to_N b')%N ->
  PrimFloat.leb (fraction b) (fraction b') = true.
Proof.
  assert (forallb (fun b =>
            forallb (fun b' =>
              implb (N.leb (Byte.to_N b) (Byte.to_N b'))
                    (PrimFloat.leb (fraction b) (fraction b')))
              allBytes) allBytes = true) as Hcheck.
  { vm_compute. reflexivity. }
  intros Hle. rewrite forallb_forall in Hcheck.
  specialize (Hcheck b (allBytes_complete b)).
  rewrite forallb_forall in Hcheck.
  specialize (Hcheck b' (allBytes_complete b')).
  apply N.leb_le in Hle. by rewrite Hle in Hcheck.
Qed.

(** X11: the mode draw is a threshold on the random byte: if
    [usePointerValues] answers pointer mode for a byte, it answers pointer
    mode for every larger byte, whatever the legacy probability is. *)
Theorem X11_usePointerValues_threshold c (w w' : world) :
  (Byte.to_N (hd x00 (w_rand w)) <= Byte.to_N (hd x00 (w_rand w')))%N ->
  fst (usePointerValues c w) = Ok true ->
  fst (usePointerValues c w') = Ok true.
Proof.
  intros Hle. rewrite !usePointerValues_result. intros [= Hp]. f_equal.
  exact (float_leb_trans _ _ _ Hp (fraction_mono _ _ Hle)).
Qed.

Lemma X11_usePointerValues_threshold_witness :
  (Byte.to_N (hd x00 (w_rand demoWorld))
   <= Byte.to_N (hd x00 (w_rand (set_rand (fun _ => [xf0]) demoWorld))))%N /\
  fst (usePointerValues demoComponent demoWorld) = Ok true /\
  fst (usePointerValues demoComponent (set_rand (fun _ => [xf0]) demoWorld))
  = Ok true.
Proof.
  assert (Byte.to_N (hd x00 (w_rand demoWorld))
          <= Byte.to_N (hd x00 (w_rand (set_rand (fun _ => [xf0]) demoWorld))))%N
    as Hle by (vm_compute; discriminate).
  split; [exact Hle|]. split; [reflexivity|].
  exact (X11_usePointerValues_threshold demoComponent demoWorld
           (set_rand (fun _ => [xf0]) demoWorld) Hle eq_refl).
Defined.
